(** * Swipe: the carousel controller of [src/swipe/Swipe.tsx]

    A shallow embedding of the [setup] function of the Swipe component:
    the reactive [state] object, the computed geometry ([size],
    [minOffset], [maxCount], [trackSize], [activeIndicator]), the position
    resolver ([getTargetActive], [getTargetOffset]), [move],
    [correctPosition], [initialize], the touch handlers and the exposed
    navigation methods.

    Numbers.  A JavaScript number is modelled by [JS.num]: an integer, one
    of the two infinities, or NaN.  Pixel sizes, touch deltas, indices and
    millisecond timestamps are integers; on integers below 2^53 the
    floating-point operations used by the component (+, -, *, min, max,
    comparison, [%]) are exact, and so is a quotient that is only rounded
    by [Math.ceil]/[Math.floor] or compared with a constant.  A quotient
    is therefore never stored on its own: [JS.ceil_quot a b] is
    [Math.ceil(a / b)], [JS.floor_quot a b] is [Math.floor(a / b)].  The
    two zeros are identified; they differ only as divisors, and the
    divisors of the component (panel size, panel count, elapsed time) are
    never negative zero. *)

From Stdlib Require Import ZArith Lia Bool List.
From stdpp Require Import base list.
Import ListNotations.
Open Scope Z_scope.

(** ** JavaScript numbers *)

Module JS.

Inductive num : Type :=
| Fin (z : Z)
| PInf
| NInf
| NaN.

(** Unary minus. *)
Definition neg (x : num) : num :=
  match x with
  | Fin a => Fin (- a)
  | PInf => NInf
  | NInf => PInf
  | NaN => NaN
  end.

(** [x + y]. *)
Definition add (x y : num) : num :=
  match x, y with
  | NaN, _ | _, NaN => NaN
  | Fin a, Fin b => Fin (a + b)
  | PInf, NInf | NInf, PInf => NaN
  | PInf, _ | _, PInf => PInf
  | NInf, _ | _, NInf => NInf
  end.

(** [x - y]. *)
Definition sub (x y : num) : num := add x (neg y).

(** The sign of an infinite product: [pos] tells whether the infinite
    factor is [+Infinity], [a] is the finite factor. *)
Definition inf_times (pos : bool) (a : Z) : num :=
  if a =? 0 then NaN
  else if Bool.eqb pos (0 <? a) then PInf else NInf.

(** [x * y]. *)
Definition mul (x y : num) : num :=
  match x, y with
  | NaN, _ | _, NaN => NaN
  | Fin a, Fin b => Fin (a * b)
  | Fin a, PInf | PInf, Fin a => inf_times true a
  | Fin a, NInf | NInf, Fin a => inf_times false a
  | PInf, PInf | NInf, NInf => PInf
  | PInf, NInf | NInf, PInf => NInf
  end.

(** [Math.abs]. *)
Definition abs (x : num) : num :=
  match x with
  | Fin a => Fin (Z.abs a)
  | PInf | NInf => PInf
  | NaN => NaN
  end.

(** Ordering; [None] when an operand is NaN (every comparison is then
    false). *)
Definition cmp (x y : num) : option comparison :=
  match x, y with
  | NaN, _ | _, NaN => None
  | Fin a, Fin b => Some (a ?= b)
  | PInf, PInf | NInf, NInf => Some Eq
  | PInf, _ | _, NInf => Some Gt
  | NInf, _ | _, PInf => Some Lt
  end.

(** [x < y], [x > y], [x <= y], [x >= y], [x === y], [x !== y]. *)
Definition ltb (x y : num) : bool :=
  match cmp x y with Some Lt => true | _ => false end.
Definition gtb (x y : num) : bool := ltb y x.
Definition leb (x y : num) : bool :=
  match cmp x y with Some Lt | Some Eq => true | _ => false end.
Definition geb (x y : num) : bool := leb y x.
Definition seq (x y : num) : bool :=
  match cmp x y with Some Eq => true | _ => false end.
Definition sne (x y : num) : bool := negb (seq x y).

(** [Math.min(x, y)] and [Math.max(x, y)]: NaN when an operand is NaN. *)
Definition min (x y : num) : num :=
  match cmp x y with
  | None => NaN
  | Some Gt => y
  | Some _ => x
  end.
Definition max (x y : num) : num :=
  match cmp x y with
  | None => NaN
  | Some Lt => y
  | Some _ => x
  end.

(** The truth value of a number in a condition: false for 0 and NaN. *)
Definition truthy (x : num) : bool :=
  match x with
  | Fin a => negb (a =? 0)
  | PInf | NInf => true
  | NaN => false
  end.

(** [x % y]: the remainder has the sign of the dividend. *)
Definition rem (x y : num) : num :=
  match x, y with
  | Fin a, Fin b => if b =? 0 then NaN else Fin (Z.rem a b)
  | Fin a, (PInf | NInf) => Fin a
  | _, _ => NaN
  end.

(** [Math.ceil(a / b)] and [Math.floor(a / b)] on integers, [b <> 0].
    [Z.div] rounds towards minus infinity for either sign of [b]. *)
Definition ceil_div (a b : Z) : Z := - ((- a) / b).
Definition floor_div (a b : Z) : Z := a / b.

(** [rnd(x / y)] for a rounding [rnd] of the quotient of two integers.  A
    zero divisor is [+0]: the quotient is then infinite with the sign of
    the dividend, or NaN for [0 / 0]. *)
Definition quot_with (rnd : Z -> Z -> Z) (x y : num) : num :=
  match x, y with
  | NaN, _ | _, NaN => NaN
  | Fin a, Fin b =>
      if b =? 0 then
        (if a =? 0 then NaN else if 0 <? a then PInf else NInf)
      else Fin (rnd a b)
  | Fin _, _ => Fin 0
  | PInf, Fin b => if 0 <=? b then PInf else NInf
  | NInf, Fin b => if 0 <=? b then NInf else PInf
  | _, _ => NaN
  end.

Definition ceil_quot : num -> num -> num := quot_with ceil_div.
Definition floor_quot : num -> num -> num := quot_with floor_div.

(** [Math.abs(a / b) > 0.25] for integers [a] and [b]; [a / 0] is
    infinite unless [a] is 0, in which case it is NaN. *)
Definition abs_quot_gt_quarter (a b : Z) : bool :=
  if b =? 0 then negb (a =? 0) else Z.abs b <? 4 * Z.abs a.

(** [Math.abs(a) > y / 2] for an integer [a]: doubling both sides is
    exact, also for an infinite or NaN [y]. *)
Definition abs_gt_half (a : Z) (y : num) : bool :=
  gtb (Fin (2 * Z.abs a)) y.

End JS.

Import JS.

(** Modelled from the spec: [range] is imported from [../utils], which
    is not part of the sources at hand; the spec describes it as clamping
    its first argument into the interval given by the other two.  The
    usual one-line definition is taken: the lower bound is applied first,
    then the upper bound. *)
Definition range (n lo hi : num) : num := JS.min (JS.max n lo) hi.

(** ** The component *)

Module Swipe.

(** The props read by [setup].  [width], [height], [autoplay] and
    [initialSwipe] hold the number obtained by the unary [+] the code
    applies to them; an absent [width] or [height] is [None].  Props that
    only reach the rendered markup are left out. *)
Record Props : Type := {
  loop : bool;
  width_prop : option num;
  height_prop : option num;
  vertical : bool;
  touchable : bool;
  autoplay_prop : num;
  initialSwipe : num;
}.

(** [{ width: root.value.offsetWidth, height: root.value.offsetHeight }] *)
Record Rect : Type := {
  rect_width : Z;
  rect_height : Z;
}.

(** The reactive [state] object. *)
Record State : Type := {
  rect : option Rect;
  width : num;
  height : num;
  offset : num;
  active : num;
  swiping : bool;
}.

(** The readings of the touch tracker ([useTouch]). *)
Inductive Direction : Type := Horizontal | Vertical | NoDirection.

Record Touch : Type := {
  deltaX : Z;
  deltaY : Z;
  offsetX : Z;
  offsetY : Z;
  direction : Direction;
}.

(** Everything [setup] closes over: [state], the registered children
    (each panel is represented by the offset last given to its
    [setOffset]), the touch tracker, [touchStartTime] ([None] while the
    variable is still undefined), whether [autoplayTimer] is pending, and
    the payloads of the ['change'] events emitted so far, oldest first. *)
Record Component : Type := {
  state : State;
  children : list num;
  touch : Touch;
  touchStartTime : option Z;
  autoplayTimer : bool;
  emitted : list num;
}.

Definition direction_eqb (a b : Direction) : bool :=
  match a, b with
  | Horizontal, Horizontal | Vertical, Vertical
  | NoDirection, NoDirection => true
  | _, _ => false
  end.

(** Modelled from the spec: [touch.reset()] of the touch tracker, which
    is an external collaborator; it clears the accumulated deltas, offsets
    and the classified direction. *)
Definition touch_reset : Touch :=
  {| deltaX := 0; deltaY := 0; offsetX := 0; offsetY := 0;
     direction := NoDirection |}.

(** Field updates of [state] and of the component. *)
Definition set_state (c : Component) (s : State) : Component :=
  {| state := s; children := children c; touch := touch c;
     touchStartTime := touchStartTime c; autoplayTimer := autoplayTimer c;
     emitted := emitted c |}.

Definition set_children (c : Component) (l : list num) : Component :=
  {| state := state c; children := l; touch := touch c;
     touchStartTime := touchStartTime c; autoplayTimer := autoplayTimer c;
     emitted := emitted c |}.

Definition set_touch (c : Component) (t : Touch) : Component :=
  {| state := state c; children := children c; touch := t;
     touchStartTime := touchStartTime c; autoplayTimer := autoplayTimer c;
     emitted := emitted c |}.

Definition set_touchStartTime (c : Component) (t : option Z) : Component :=
  {| state := state c; children := children c; touch := touch c;
     touchStartTime := t; autoplayTimer := autoplayTimer c;
     emitted := emitted c |}.

Definition set_autoplayTimer (c : Component) (b : bool) : Component :=
  {| state := state c; children := children c; touch := touch c;
     touchStartTime := touchStartTime c; autoplayTimer := b;
     emitted := emitted c |}.

(** [emit('change', v)] *)
Definition emit_change (c : Component) (v : num) : Component :=
  {| state := state c; children := children c; touch := touch c;
     touchStartTime := touchStartTime c; autoplayTimer := autoplayTimer c;
     emitted := emitted c ++ [v] |}.

Definition set_swiping (c : Component) (b : bool) : Component :=
  set_state c
    {| rect := rect (state c); width := width (state c);
       height := height (state c); offset := offset (state c);
       active := active (state c); swiping := b |}.

Definition set_active_offset (c : Component) (a o : num) : Component :=
  set_state c
    {| rect := rect (state c); width := width (state c);
       height := height (state c); offset := o;
       active := a; swiping := swiping (state c) |}.

(** [children[i].setOffset(v)]; nothing happens when there is no child
    at [i]. *)
Definition setOffset (c : Component) (i : nat) (v : num) : Component :=
  set_children c (<[i := v]> (children c)).

Section Setup.

Variable props : Props.

(** [count = computed(() => children.length)] *)
Definition count (c : Component) : num :=
  Fin (Z.of_nat (length (children c))).

(** [size = computed(() => state[props.vertical ? 'height' : 'width'])] *)
Definition size (c : Component) : num :=
  if vertical props then height (state c) else width (state c).

(** [delta]: the touch delta along the main axis. *)
Definition delta (c : Component) : Z :=
  if vertical props then deltaY (touch c) else deltaX (touch c).

Definition minOffset (c : Component) : num :=
  match rect (state c) with
  | Some r =>
      let base := if vertical props then rect_height r else rect_width r in
      sub (Fin base) (mul (size c) (count c))
  | None => Fin 0
  end.

(** [Math.ceil(Math.abs(minOffset.value) / size.value)] *)
Definition maxCount (c : Component) : num :=
  ceil_quot (JS.abs (minOffset c)) (size c).

Definition trackSize (c : Component) : num := mul (count c) (size c).

(** [(state.active + count.value) % count.value] *)
Definition activeIndicator (c : Component) : num :=
  rem (add (active (state c)) (count c)) (count c).

Definition isCorrectDirection (c : Component) : bool :=
  direction_eqb (direction (touch c))
    (if vertical props then Vertical else Horizontal).

Definition getTargetActive (c : Component) (pace : num) : num :=
  let active := active (state c) in
  if truthy pace then
    if loop props then range (add active pace) (Fin (-1)) (count c)
    else range (add active pace) (Fin 0) (maxCount c)
  else active.

Definition getTargetOffset (c : Component) (targetActive offset : num)
  : num :=
  let currentPosition := mul targetActive (size c) in
  let currentPosition :=
    if negb (loop props) then JS.min currentPosition (neg (minOffset c))
    else currentPosition in
  let targetOffset := sub offset currentPosition in
  if negb (loop props) then range targetOffset (minOffset c) (Fin 0)
  else targetOffset.

(** The index [count.value - 1] of the last child. *)
Definition last_index (c : Component) : nat := Nat.pred (length (children c)).

(** The loop-mode block of [move]: the first and the last panel are
    moved to the far side of the track when the target offset runs past
    a bound.  [minOffset] and [trackSize] do not depend on the panel
    offsets, so they are read from [c] throughout. *)
Definition move_edges (c : Component) (targetOffset : num) : Component :=
  let c1 :=
    if sne targetOffset (minOffset c) then
      let outRightBound := ltb targetOffset (minOffset c) in
      setOffset c 0 (if outRightBound then trackSize c else Fin 0)
    else c in
  if sne targetOffset (Fin 0) then
    let outLeftBound := gtb targetOffset (Fin 0) in
    setOffset c1 (last_index c)
      (if outLeftBound then neg (trackSize c) else Fin 0)
  else c1.

(** [move({ pace, offset, emitChange })]; the callers that leave an
    argument out pass its default ([0], [0], falsy). *)
Definition move (c : Component) (pace offset : num) (emitChange : bool)
  : Component :=
  if leb (count c) (Fin 1) then c
  else
    let active0 := active (state c) in
    let targetActive := getTargetActive c pace in
    let targetOffset := getTargetOffset c targetActive offset in
    let c1 := if loop props then move_edges c targetOffset else c in
    let c2 := set_active_offset c1 targetActive targetOffset in
    if emitChange && sne targetActive active0
    then emit_change c2 (activeIndicator c2)
    else c2.

Definition correctPosition (c : Component) : Component :=
  let c1 := set_swiping c true in
  if leb (active (state c1)) (Fin (-1)) then
    move c1 (count c1) (Fin 0) false
  else if geb (active (state c1)) (count c1) then
    move c1 (neg (count c1)) (Fin 0) false
  else c1.

(** [prev] and [next] run [correctPosition] and [touch.reset()] at once and
    hand a callback to [doubleRaf]; the [_sync] function is the immediate
    part, the [_frame] function the callback, and their composition is a
    call during which no other handler runs. *)
Definition nav_sync (c : Component) : Component :=
  set_touch (correctPosition c) touch_reset.

Definition prev_frame (c : Component) : Component :=
  move (set_swiping c false) (Fin (-1)) (Fin 0) true.

Definition prev (c : Component) : Component := prev_frame (nav_sync c).

Definition next_frame (c : Component) : Component :=
  move (set_swiping c false) (Fin 1) (Fin 0) true.

Definition next (c : Component) : Component := next_frame (nav_sync c).

Definition stopAutoplay (c : Component) : Component :=
  set_autoplayTimer c false.

(** [autoplay] arms the timer.  When the timer fires, its callback runs
    [next(); autoplay()]: the immediate part of [next], the re-arming, and
    later the frame callback of [next]. *)
Definition autoplay (c : Component) : Component :=
  if gtb (autoplay_prop props) (Fin 0) && gtb (count c) (Fin 1)
  then set_autoplayTimer (stopAutoplay c) true
  else c.

Definition autoplay_fire (c : Component) : Component :=
  next_frame (autoplay (nav_sync (set_autoplayTimer c false))).

(** [initialize(active)].  [root] is [None] when [root.value] is missing
    or hidden, and the measured [offsetWidth]/[offsetHeight] otherwise. *)
Definition initialize (root : option Rect) (c : Component) (active : num)
  : Component :=
  match root with
  | None => c
  | Some r =>
      let c := stopAutoplay c in
      let active :=
        if truthy (count c) then JS.min (sub (count c) (Fin 1)) active
        else active in
      let measured (p : option num) (m : Z) : num :=
        match p with Some v => v | None => Fin m end in
      let c :=
        set_state c
          {| rect := Some r;
             width := measured (width_prop props) (rect_width r);
             height := measured (height_prop props) (rect_height r);
             offset := offset (state c);
             active := active;
             swiping := true |} in
      let c := set_active_offset c active (getTargetOffset c active (Fin 0)) in
      let c := set_children c (map (fun _ => Fin 0) (children c)) in
      autoplay c
  end.

Definition resize (root : option Rect) (c : Component) : Component :=
  initialize root c (active (state c)).

(** [onTouchStart]: [touch.start(event)] resets the tracker; [now] is
    [Date.now()]. *)
Definition onTouchStart (now : Z) (c : Component) : Component :=
  if negb (touchable props) then c
  else
    let c := set_touch c touch_reset in
    let c := set_touchStartTime c (Some now) in
    correctPosition (stopAutoplay c).

(** [onTouchMove]: [reading] is the state of the tracker after
    [touch.move(event)]. *)
Definition onTouchMove (reading : Touch) (c : Component) : Component :=
  if touchable props && swiping (state c) then
    let c := set_touch c reading in
    if isCorrectDirection c then move c (Fin 0) (Fin (delta c)) false
    else c
  else c.

(** What the [if]/[else if] of [onTouchEnd] hands to [move]:
    [move({ pace, emitChange: true })], [move({ pace: 0 })], or no call. *)
Inductive Issued : Type :=
| NoMove
| MoveWith (pace : num) (emitChange : bool).

Definition perform (c : Component) (i : Issued) : Component :=
  match i with
  | NoMove => c
  | MoveWith pace emitChange => move c pace (Fin 0) emitChange
  end.

(** [Math.abs(speed) > 0.25] for [speed = delta.value / duration] and
    [duration = Date.now() - touchStartTime]; with [touchStartTime] still
    undefined the duration, and with it the speed, is NaN. *)
Definition speed_gt_quarter (now : Z) (c : Component) : bool :=
  match touchStartTime c with
  | Some start => abs_quot_gt_quarter (delta c) (now - start)
  | None => false
  end.

(** The body of [onTouchEnd] between its guard and [state.swiping =
    false]; [now] is [Date.now()]. *)
Definition onTouchEnd_issue (now : Z) (c : Component) : Issued :=
  let shouldSwipe :=
    speed_gt_quarter now c || abs_gt_half (delta c) (size c) in
  if shouldSwipe && isCorrectDirection c then
    let offset :=
      if vertical props then offsetY (touch c) else offsetX (touch c) in
    let pace :=
      if loop props then
        (if 0 <? offset then (if 0 <? delta c then Fin (-1) else Fin 1)
         else Fin 0)
      else
        neg ((if 0 <? delta c then ceil_quot else floor_quot)
               (Fin (delta c)) (size c)) in
    MoveWith pace true
  else if negb (delta c =? 0) then MoveWith (Fin 0) false
  else NoMove.

Definition onTouchEnd (now : Z) (c : Component) : Component :=
  if negb (touchable props) || negb (swiping (state c)) then c
  else
    let c := perform c (onTouchEnd_issue now c) in
    autoplay (set_swiping c false).

(** [targetIndex] of [swipeTo]. *)
Definition swipeTo_target (c : Component) (index : num) : num :=
  if loop props && seq index (count c) then
    (if seq (active (state c)) (Fin 0) then Fin 0 else index)
  else rem index (count c).

(** The callback [swipeTo] hands to [doubleRaf].  With [immediate] the
    flag [swiping] is cleared by a further callback, [swipeTo_settle],
    after the move. *)
Definition swipeTo_frame (index : num) (immediate : bool) (c : Component)
  : Component :=
  let targetIndex := swipeTo_target c index in
  let c := if immediate then c else set_swiping c false in
  move c (sub targetIndex (active (state c))) (Fin 0) true.

Definition swipeTo_settle (immediate : bool) (c : Component) : Component :=
  if immediate then set_swiping c false else c.

(** A whole [swipeTo(index, { immediate })], its callbacks included. *)
Definition swipeTo (index : num) (immediate : bool) (c : Component)
  : Component :=
  swipeTo_settle immediate (swipeTo_frame index immediate (nav_sync c)).

End Setup.

End Swipe.

Import Swipe.

(** ** Specification vocabulary and sample configurations *)

(** The number of registered panels. *)
Definition panels (c : Component) : Z := Z.of_nat (length (children c)).

(** The measured length of the container along the main axis. *)
Definition base_of (p : Props) (r : Rect) : Z :=
  if vertical p then rect_height r else rect_width r.


(** Horizontal, touchable props without autoplay. *)
Definition props_with (lp : bool) (w : option num) : Props :=
  {| loop := lp; width_prop := w; height_prop := None; vertical := false;
     touchable := true; autoplay_prop := Fin 0; initialSwipe := Fin 0 |}.

(** The component as [setup] leaves it, with [n] registered panels. *)
Definition fresh (n : nat) : Component :=
  {| state := {| rect := None; width := Fin 0; height := Fin 0;
                 offset := Fin 0; active := Fin 0; swiping := false |};
     children := repeat (Fin 0) n;
     touch := touch_reset;
     touchStartTime := None;
     autoplayTimer := false;
     emitted := [] |}.

(** [n] panels mounted in a container [w] pixels wide, initialized at
    index [i]. *)
Definition mounted (p : Props) (w : Z) (n : nat) (i : Z) : Component :=
  initialize p (Some {| rect_width := w; rect_height := 50 |}) (fresh n)
    (Fin i).

(** Three 100-pixel panels in a 100-pixel container, with and without
    loop. *)
Definition loop3 : Component := mounted (props_with true None) 100 3 0.
Definition flat3 : Component := mounted (props_with false None) 100 3 0.

(** [loop3] after [prev()]: the active index is -1. *)
Definition loop3_before : Component := prev (props_with true None) loop3.

(** [loop3] after two [next()]: the active index is 2 and the offset is
    [minOffset]. *)
Definition loop3_end : Component :=
  next (props_with true None) (next (props_with true None) loop3).

(** Three panels given a width of 100 pixels in a container 500 pixels
    wide: the track is shorter than the container. *)
Definition narrow_props : Props := props_with false (Some (Fin 100)).
Definition narrow3 : Component := mounted narrow_props 500 3 0.

(** The stored offset lies between [minOffset] and 0. *)
Definition offset_in_bounds (p : Props) (c : Component) : Prop :=
  exists m o,
    minOffset p c = Fin m /\ offset (state c) = Fin o /\ m <= o <= 0.

(** [touch.offsetX] or [touch.offsetY], by orientation. *)
Definition main_offset (p : Props) (c : Component) : Z :=
  if vertical p then offsetY (touch c) else offsetX (touch c).

(** [|d / t| > 0.25]; for [t = 0] the quotient of a nonzero [d] is
    infinite. *)
Definition speed_over_quarter (d t : Z) : Prop :=
  (t <> 0 /\ Z.abs t < 4 * Z.abs d) \/ (t = 0 /\ d <> 0).

(** [|d| > s / 2] *)
Definition over_half (d s : Z) : Prop := s < 2 * Z.abs d.

(** The gesture runs along the configured axis and is fast or long
    enough; [s] is the panel size, [now] the time of the touch end.  The
    speed is measured from the recorded touch start; without one it is
    NaN and exceeds nothing. *)
Definition commit_condition (p : Props) (now : Z) (c : Component) (s : Z)
  : Prop :=
  isCorrectDirection p c = true /\
  ((exists start,
      touchStartTime c = Some start /\
      speed_over_quarter (delta p c) (now - start)) \/
   over_half (delta p c) s).

(** The pace of a committed gesture in loop mode. *)
Definition loop_pace (offset d : Z) : Z :=
  if 0 <? offset then (if 0 <? d then -1 else 1) else 0.

(** The pace of a committed gesture outside loop mode:
    [- sign(d) * ceil(|d| / s)]. *)
Definition flat_pace (d s : Z) : Z := - Z.sgn d * ceil_div (Z.abs d) s.

(** A reading of the touch tracker: a horizontal drag by [d] pixels. *)
Definition horizontal_drag (d : Z) : Touch :=
  {| deltaX := d; deltaY := 0; offsetX := Z.abs d; offsetY := 0;
     direction := Horizontal |}.

(** A drag of 80 pixels to the left on [loop3], started at time 0. *)
Definition dragged3 : Component :=
  onTouchMove (props_with true None) (horizontal_drag (-80))
    (onTouchStart (props_with true None) 0 loop3).

(** The same drag started while a [next()] was waiting for its frame
    callback, which then ran during the drag and cleared [swiping]. *)
Definition interrupted3 : Component :=
  next_frame (props_with true None)
    (onTouchMove (props_with true None) (horizontal_drag (-80))
       (onTouchStart (props_with true None) 0
          (nav_sync (props_with true None) loop3))).

(** Two components with the same measurements and the same number of
    panels. *)
Definition same_geometry (c c' : Component) : Prop :=
  panels c' = panels c /\
  rect (state c') = rect (state c) /\
  width (state c') = width (state c) /\
  height (state c') = height (state c).

(** [getTargetActive] on integers: [n] is the number of panels, [mc] the
    value of [maxCount]. *)
Definition resolve (lp : bool) (n mc a pace : Z) : Z :=
  if pace =? 0 then a
  else if lp then Z.min (Z.max (a + pace) (-1)) n
       else Z.min (Z.max (a + pace) 0) mc.

(** Outside loop mode the panel size is a positive integer; in loop mode
    the resolver does not read it. *)
Definition measured (p : Props) (c : Component) : Prop :=
  loop p = true \/ exists s, size p c = Fin s /\ 0 < s.

(** ** The indicator, the watchers and the handlers as events *)

(** [renderDot]: whether the dot at [index] gets the [active] modifier. *)
Definition renderDot (c : Component) (index : nat) : bool :=
  seq (Fin (Z.of_nat index)) (activeIndicator c).

(** What [renderIndicator] returns: the content of the [indicator] slot,
    the row of dots (each dot given by its [active] flag), or nothing. *)
Inductive Indicator : Type :=
| IndicatorSlot
| IndicatorDots (dots : list bool)
| NoIndicator.

(** [renderIndicator]; [slot] tells whether [slots.indicator] is given,
    [showIndicators] is the prop of that name.  The dots are
    [Array(count.value).fill('').map(renderDot)]. *)
Definition renderIndicator (slot showIndicators : bool) (c : Component)
  : Indicator :=
  if slot then IndicatorSlot
  else if showIndicators && gtb (count c) (Fin 1)
       then IndicatorDots
              (map (renderDot c) (List.seq 0 (length (children c))))
       else NoIndicator.

(** [onMounted(initialize)] and the watcher of [props.initialSwipe]:
    [initialize(+props.initialSwipe)]; [p] holds the current props. *)
Definition initialize_default (p : Props) (root : option Rect)
    (c : Component) : Component :=
  initialize p root c (initialSwipe p).

(** The watcher of [props.autoplay]. *)
Definition watch_autoplay (p : Props) (c : Component) : Component :=
  if gtb (autoplay_prop p) (Fin 0) then autoplay p c else stopAutoplay c.

(** The watcher of the page visibility; [visible] is
    [visible === 'visible']. *)
Definition watch_visibility (p : Props) (visible : bool) (c : Component)
  : Component :=
  if visible then autoplay p c else stopAutoplay c.

(** The callback of the autoplay timer up to the point where [next] waits
    for its frame: the timer is no longer pending, [next] runs its
    immediate part, [autoplay] arms the timer again. *)
Definition timer_callback (p : Props) (c : Component) : Component :=
  autoplay p (nav_sync p (set_autoplayTimer c false)).

(** The entry points of the component, one event per uninterrupted run
    of code.  [prev], [next] and [swipeTo] are an [ENavSync] followed,
    possibly after other events, by their frame callback; [resize],
    [onActivated] and the watchers of [count] and of the window size are
    [EResize]; [onDeactivated] and [onBeforeUnmount] are
    [EVisibility false]. *)
Inductive Event : Type :=
| EInitialize (root : option Rect) (requested : num)
| EResize (root : option Rect)
| ETouchStart (now : Z)
| ETouchMove (reading : Touch)
| ETouchEnd (now : Z)
| ENavSync
| EPrevFrame
| ENextFrame
| ESwipeToFrame (index : num) (immediate : bool)
| ESwipeToSettle (immediate : bool)
| ETimer
| EAutoplayProp
| EVisibility (visible : bool).

Definition handle (p : Props) (c : Component) (e : Event) : Component :=
  match e with
  | EInitialize root requested => initialize p root c requested
  | EResize root => resize p root c
  | ETouchStart now => onTouchStart p now c
  | ETouchMove reading => onTouchMove p reading c
  | ETouchEnd now => onTouchEnd p now c
  | ENavSync => nav_sync p c
  | EPrevFrame => prev_frame p c
  | ENextFrame => next_frame p c
  | ESwipeToFrame index immediate => swipeTo_frame p index immediate c
  | ESwipeToSettle immediate => swipeTo_settle immediate c
  | ETimer => timer_callback p c
  | EAutoplayProp => watch_autoplay p c
  | EVisibility visible => watch_visibility p visible c
  end.

(** The component after a sequence of events. *)
Definition run (p : Props) (c : Component) (es : list Event) : Component :=
  fold_left (handle p) es c.

(** A touch event. *)
Definition is_touch_event (e : Event) : Prop :=
  match e with
  | ETouchStart _ | ETouchMove _ | ETouchEnd _ => True
  | _ => False
  end.

(** An event that leaves the measurements alone: no initialization that
    is carried out. *)
Definition keeps_geometry (e : Event) : Prop :=
  match e with
  | EInitialize (Some _) _ | EResize (Some _) => False
  | _ => True
  end.

(** An initialization that is carried out asks for an integer index of
    at least -1. *)
Definition initial_index_ok (e : Event) : Prop :=
  match e with
  | EInitialize (Some _) (Fin q) => -1 <= q
  | EInitialize (Some _) _ => False
  | _ => True
  end.

(** [v] is an index of one of [n] panels. *)
Definition panel_index (n : Z) (v : num) : Prop :=
  exists i, v = Fin i /\ 0 <= i < n.

(** The loop-mode invariant: the active index is an integer in
    [-1 .. count] and every payload emitted so far is a panel index. *)
Definition loop_inv (c : Component) : Prop :=
  (exists a, active (state c) = Fin a /\ -1 <= a <= panels c) /\
  Forall (panel_index (panels c)) (emitted c).

(** The invariant outside loop mode, for a panel size [s], a value [m]
    of [minOffset] and a value [mc] of [maxCount]: the geometry is this
    one, the active index is an integer in [0 .. mc], the offset is an
    integer in [m .. 0], and every payload emitted so far is a panel
    index. *)
Definition flat_inv (p : Props) (s m mc : Z) (c : Component) : Prop :=
  size p c = Fin s /\ minOffset p c = Fin m /\ maxCount p c = Fin mc /\
  (exists a, active (state c) = Fin a /\ 0 <= a <= mc) /\
  (exists o, offset (state c) = Fin o /\ m <= o <= 0) /\
  Forall (panel_index (panels c)) (emitted c).

(** The track is where its active index puts it: no drag offset is
    applied. *)
Definition at_rest (p : Props) (c : Component) : Prop :=
  offset (state c) = getTargetOffset p c (active (state c)) (Fin 0).

(** The autoplay timer is pending only if [props.autoplay > 0] and there
    is more than one panel. *)
Definition timer_inv (p : Props) (c : Component) : Prop :=
  autoplayTimer c = true ->
  gtb (autoplay_prop p) (Fin 0) = true /\ 1 < panels c.

(** A gesture: a touch start, touch moves with the given readings, a
    touch end. *)
Definition gesture (p : Props) (start : Z) (readings : list Touch)
    (finish : Z) (c : Component) : Component :=
  onTouchEnd p finish
    (fold_left (fun c r => onTouchMove p r c) readings
       (onTouchStart p start c)).

(** A reading along the configured axis. *)
Definition along_axis (p : Props) (r : Touch) : Prop :=
  direction r = if vertical p then Vertical else Horizontal.

(** During a drag: [swiping] is set and the track is displaced from its
    resting place by the current delta; with at most one panel it does
    not follow the finger. *)
Definition dragging (p : Props) (c : Component) : Prop :=
  swiping (state c) = true /\
  if 1 <? panels c
  then offset (state c) =
       getTargetOffset p c (active (state c)) (Fin (delta p c))
  else at_rest p c.

(** The number of [true] flags in a row of dots. *)
Definition active_dots (dots : list bool) : nat :=
  length (List.filter (fun b => b) dots).

(** A touch move or a touch end. *)
Definition is_drag_event (e : Event) : Prop :=
  match e with
  | ETouchMove _ | ETouchEnd _ => True
  | _ => False
  end.

(** An integer of magnitude at most 2^53.  Every such integer is a
    double, and a sum, difference or product of doubles whose exact value
    is such an integer is computed without rounding. *)
Definition exact_int (z : Z) : Prop := Z.abs z <= 2 ^ 53.

(** ** Arithmetic on integer-valued numbers *)

Lemma ltb_Fin a b : ltb (Fin a) (Fin b) = (a <? b).
Proof.
  unfold ltb, Z.ltb; simpl. now destruct (a ?= b).
Qed.

Lemma gtb_Fin a b : gtb (Fin a) (Fin b) = (b <? a).
Proof. apply ltb_Fin. Qed.

Lemma leb_Fin a b : leb (Fin a) (Fin b) = (a <=? b).
Proof.
  unfold leb, Z.leb; simpl. now destruct (a ?= b).
Qed.

Lemma geb_Fin a b : geb (Fin a) (Fin b) = (b <=? a).
Proof. apply leb_Fin. Qed.

Lemma seq_Fin a b : seq (Fin a) (Fin b) = (a =? b).
Proof.
  unfold seq; simpl. rewrite Z.eqb_compare. now destruct (a ?= b).
Qed.

Lemma sne_Fin a b : sne (Fin a) (Fin b) = negb (a =? b).
Proof. unfold sne. now rewrite seq_Fin. Qed.

Lemma min_Fin a b : JS.min (Fin a) (Fin b) = Fin (Z.min a b).
Proof.
  unfold JS.min, Z.min; simpl. now destruct (a ?= b).
Qed.

Lemma max_Fin a b : JS.max (Fin a) (Fin b) = Fin (Z.max a b).
Proof.
  unfold JS.max, Z.max; simpl. now destruct (a ?= b).
Qed.

Lemma range_Fin x lo hi :
  range (Fin x) (Fin lo) (Fin hi) = Fin (Z.min (Z.max x lo) hi).
Proof. unfold range. now rewrite max_Fin, min_Fin. Qed.

Lemma truthy_Fin a : truthy (Fin a) = negb (a =? 0).
Proof. reflexivity. Qed.

Lemma rem_Fin a b : b <> 0 -> rem (Fin a) (Fin b) = Fin (Z.rem a b).
Proof.
  intros Hb. simpl. destruct (Z.eqb_spec b 0); [contradiction | reflexivity].
Qed.

Lemma ceil_quot_Fin a b :
  b <> 0 -> ceil_quot (Fin a) (Fin b) = Fin (ceil_div a b).
Proof.
  intros Hb. unfold ceil_quot; simpl.
  destruct (Z.eqb_spec b 0); [contradiction | reflexivity].
Qed.

Lemma floor_quot_Fin a b :
  b <> 0 -> floor_quot (Fin a) (Fin b) = Fin (floor_div a b).
Proof.
  intros Hb. unfold floor_quot; simpl.
  destruct (Z.eqb_spec b 0); [contradiction | reflexivity].
Qed.

(** [ceil_div a b] is the least integer [q] with [a <= q * b]. *)
Lemma ceil_div_spec a b :
  0 < b -> (ceil_div a b - 1) * b < a <= ceil_div a b * b.
Proof.
  intros Hb. unfold ceil_div.
  pose proof (Z.div_mod (- a) b) as Hdm.
  pose proof (Z.mod_pos_bound (- a) b Hb) as Hm.
  nia.
Qed.

Lemma ceil_div_nonneg a b : 0 < b -> 0 <= a -> 0 <= ceil_div a b.
Proof.
  intros Hb Ha. pose proof (ceil_div_spec a b Hb). nia.
Qed.

(** ** Geometry on a measured, integer-sized track *)

Lemma count_panels c : count c = Fin (panels c).
Proof. reflexivity. Qed.

Lemma panels_nonneg c : 0 <= panels c.
Proof. unfold panels. lia. Qed.

Lemma minOffset_Fin p c s :
  size p c = Fin s ->
  minOffset p c =
    Fin (match rect (state c) with
         | Some r => base_of p r - s * panels c
         | None => 0
         end).
Proof.
  intros Hs. unfold minOffset. rewrite Hs.
  destruct (rect (state c)); reflexivity.
Qed.

Lemma maxCount_Fin p c s m :
  size p c = Fin s -> s <> 0 -> minOffset p c = Fin m ->
  maxCount p c = Fin (ceil_div (Z.abs m) s).
Proof.
  intros Hs Hs0 Hm. unfold maxCount. rewrite Hm, Hs. simpl JS.abs.
  now apply ceil_quot_Fin.
Qed.

(** ** The position resolver *)



(** ** What [move] leaves alone and what it writes *)

Lemma leb_count_1 c : leb (count c) (Fin 1) = (panels c <=? 1).
Proof. apply leb_Fin. Qed.

Lemma move_few p c pace off e :
  panels c <= 1 -> move p c pace off e = c.
Proof.
  intros H. unfold move. rewrite leb_count_1.
  destruct (Z.leb_spec (panels c) 1); [reflexivity | lia].
Qed.

Lemma length_move_edges p c t :
  length (children (move_edges p c t)) = length (children c).
Proof.
  unfold move_edges, setOffset.
  destruct (sne t (minOffset p c)), (sne t (Fin 0)); simpl;
    now rewrite ?length_insert.
Qed.

Lemma state_move_edges p c t : state (move_edges p c t) = state c.
Proof.
  unfold move_edges, setOffset.
  now destruct (sne t (minOffset p c)), (sne t (Fin 0)).
Qed.

Lemma emitted_move_edges p c t : emitted (move_edges p c t) = emitted c.
Proof.
  unfold move_edges, setOffset.
  now destruct (sne t (minOffset p c)), (sne t (Fin 0)).
Qed.

Lemma panels_move p c pace off e : panels (move p c pace off e) = panels c.
Proof.
  unfold panels, move.
  destruct (leb (count c) (Fin 1)); [reflexivity |].
  destruct (loop p) eqn:Hl;
    destruct (e && sne (getTargetActive p c pace) (active (state c)));
    simpl; now rewrite ?length_move_edges.
Qed.

Lemma frame_move p c pace off e :
  rect (state (move p c pace off e)) = rect (state c) /\
  width (state (move p c pace off e)) = width (state c) /\
  height (state (move p c pace off e)) = height (state c) /\
  swiping (state (move p c pace off e)) = swiping (state c).
Proof.
  unfold move.
  destruct (leb (count c) (Fin 1)); [now repeat split |].
  destruct (loop p) eqn:Hl;
    destruct (e && sne (getTargetActive p c pace) (active (state c)));
    simpl; now rewrite ?state_move_edges.
Qed.

Lemma active_move p c pace off e :
  1 < panels c ->
  active (state (move p c pace off e)) = getTargetActive p c pace.
Proof.
  intros H. unfold move. rewrite leb_count_1.
  destruct (Z.leb_spec (panels c) 1); [lia |].
  destruct (loop p);
    now destruct (e && sne (getTargetActive p c pace) (active (state c))).
Qed.

Lemma offset_move p c pace off e :
  1 < panels c ->
  offset (state (move p c pace off e)) =
  getTargetOffset p c (getTargetActive p c pace) off.
Proof.
  intros H. unfold move. rewrite leb_count_1.
  destruct (Z.leb_spec (panels c) 1); [lia |].
  destruct (loop p);
    now destruct (e && sne (getTargetActive p c pace) (active (state c))).
Qed.

(** The geometry is a function of [rect], [width], [height] and the
    number of children, none of which [move] changes. *)
Lemma size_move p c pace off e : size p (move p c pace off e) = size p c.
Proof.
  unfold size. destruct (frame_move p c pace off e) as (_ & -> & -> & _).
  reflexivity.
Qed.

Lemma count_move p c pace off e : count (move p c pace off e) = count c.
Proof.
  rewrite !count_panels. now rewrite panels_move.
Qed.

Lemma minOffset_move p c pace off e :
  minOffset p (move p c pace off e) = minOffset p c.
Proof.
  unfold minOffset. rewrite size_move, count_move.
  destruct (frame_move p c pace off e) as (-> & _). reflexivity.
Qed.

(** The events of a move: one ['change'] carrying the new
    [activeIndicator] when [emitChange] is set and the target differs
    from the old active index, none otherwise. *)
Lemma emitted_move p c pace off e :
  emitted (move p c pace off e) =
  if (1 <? panels c) && e && sne (getTargetActive p c pace) (active (state c))
  then emitted c ++ [activeIndicator (move p c pace off e)]
  else emitted c.
Proof.
  unfold move. rewrite leb_count_1.
  destruct (Z.leb_spec (panels c) 1), (Z.ltb_spec 1 (panels c)); try lia;
    [reflexivity |].
  simpl andb.
  destruct (e && sne (getTargetActive p c pace) (active (state c)));
    destruct (loop p); simpl; now rewrite ?emitted_move_edges.
Qed.

(** ** The active indicator *)

Lemma activeIndicator_Fin c a :
  1 < panels c -> active (state c) = Fin a -> - panels c <= a ->
  activeIndicator c = Fin (a mod panels c).
Proof.
  intros Hn Ha Hlo. unfold activeIndicator.
  rewrite Ha. change (count c) with (Fin (panels c)). simpl add.
  rewrite rem_Fin by lia. f_equal.
  rewrite Z.rem_mod_nonneg by lia.
  rewrite <- (Z.mul_1_l (panels c)) at 1.
  apply Z_mod_plus_full.
Qed.

(** C3.  With more than one panel and the active index anywhere in
    [-1 .. count], the observed [activeIndicator] is the mathematical
    residue of [active] modulo [count], and so lies in [0 .. count - 1];
    this holds in loop mode and outside it. *)
Theorem C3_activeIndicator_normalized (c : Component) (a : Z) :
  1 < panels c -> active (state c) = Fin a -> -1 <= a <= panels c ->
  activeIndicator c = Fin (a mod panels c) /\
  0 <= a mod panels c < panels c.
Proof.
  intros Hn Ha Hr. split.
  - apply activeIndicator_Fin; [assumption | assumption | lia].
  - apply Z.mod_pos_bound. lia.
Qed.

(** C5.  With at most one panel, [move] returns the component as it
    was, whatever the pace, the offset and [emitChange]: [state.active],
    [state.offset], every panel offset and the list of emitted events are
    those of before. *)
Theorem C5_move_noop_single_panel (p : Props) (c : Component)
    (pace off : num) (e : bool) :
  panels c <= 1 ->
  move p c pace off e = c /\
  active (state (move p c pace off e)) = active (state c) /\
  offset (state (move p c pace off e)) = offset (state c) /\
  children (move p c pace off e) = children c /\
  emitted (move p c pace off e) = emitted c.
Proof.
  intros H. rewrite (move_few p c pace off e H). now repeat split.
Qed.

(** ** Position correction *)

Lemma getTargetActive_zero p c : getTargetActive p c (Fin 0) = active (state c).
Proof. reflexivity. Qed.

Lemma getTargetActive_loop p c a pace :
  loop p = true -> active (state c) = Fin a -> pace <> 0 ->
  getTargetActive p c (Fin pace) =
  Fin (Z.min (Z.max (a + pace) (-1)) (panels c)).
Proof.
  intros Hl Ha Hp. unfold getTargetActive.
  rewrite Hl, Ha, truthy_Fin.
  destruct (Z.eqb_spec pace 0) as [|_]; [contradiction |].
  simpl. change (count c) with (Fin (panels c)). apply range_Fin.
Qed.

(** The active index after [correctPosition] in loop mode. *)
Lemma correctPosition_active p c a :
  loop p = true -> 1 < panels c -> active (state c) = Fin a ->
  active (state (correctPosition p c)) =
  Fin (if a <=? -1 then Z.min (Z.max (a + panels c) (-1)) (panels c)
       else if panels c <=? a
            then Z.min (Z.max (a - panels c) (-1)) (panels c)
            else a).
Proof.
  intros Hl Hn Ha. unfold correctPosition.
  change (active (state (set_swiping c true))) with (active (state c)).
  change (count (set_swiping c true)) with (Fin (panels c)).
  rewrite Ha, leb_Fin, geb_Fin.
  destruct (Z.leb_spec a (-1)).
  - rewrite active_move by assumption.
    apply (getTargetActive_loop p (set_swiping c true)); [assumption.. | lia].
  - destruct (Z.leb_spec (panels c) a).
    + rewrite active_move by assumption. simpl neg.
      rewrite (getTargetActive_loop p (set_swiping c true) a) by (assumption || lia).
      reflexivity.
    + assumption.
Qed.

Lemma correctPosition_swiping p c :
  swiping (state (correctPosition p c)) = true.
Proof.
  unfold correctPosition.
  destruct (leb _ _); [| destruct (geb _ _)];
    try (now destruct (frame_move p (set_swiping c true)
                         (count (set_swiping c true)) (Fin 0) false)
           as (_ & _ & _ & ->));
    try (now destruct (frame_move p (set_swiping c true)
                         (neg (count (set_swiping c true))) (Fin 0) false)
           as (_ & _ & _ & ->)).
  reflexivity.
Qed.

Lemma panels_correctPosition p c : panels (correctPosition p c) = panels c.
Proof.
  unfold correctPosition.
  destruct (leb _ _); [| destruct (geb _ _)];
    now rewrite ?panels_move.
Qed.

Lemma emitted_correctPosition p c :
  emitted (correctPosition p c) = emitted c.
Proof.
  unfold correctPosition.
  destruct (leb _ _); [| destruct (geb _ _)];
    rewrite ?emitted_move, ?andb_false_r; reflexivity.
Qed.

(** C9.  In loop mode with more than one panel and the active index in
    [-1 .. count], [correctPosition] sets [swiping], leaves
    [activeIndicator] as it was, and leaves an active index in
    [0 .. count - 1]: an index at or below -1 has gone forward by [count],
    an index at or above [count] has gone back by [count], and an index
    already in range is kept. *)
Theorem C9_correctPosition_loop (p : Props) (c : Component) (a : Z) :
  loop p = true -> 1 < panels c ->
  active (state c) = Fin a -> -1 <= a <= panels c ->
  swiping (state (correctPosition p c)) = true /\
  activeIndicator (correctPosition p c) = activeIndicator c /\
  exists a',
    active (state (correctPosition p c)) = Fin a' /\
    0 <= a' < panels c /\
    (a <= -1 -> a' = a + panels c) /\
    (panels c <= a -> a' = a - panels c) /\
    (0 <= a < panels c -> a' = a).
Proof.
  intros Hl Hn Ha Hr.
  pose proof (correctPosition_active p c a Hl Hn Ha) as Hact.
  set (a' := if a <=? -1 then Z.min (Z.max (a + panels c) (-1)) (panels c)
             else if panels c <=? a
                  then Z.min (Z.max (a - panels c) (-1)) (panels c)
                  else a) in Hact.
  assert (Ha' : 0 <= a' < panels c /\
                (a <= -1 -> a' = a + panels c) /\
                (panels c <= a -> a' = a - panels c) /\
                (0 <= a < panels c -> a' = a)).
  { subst a'. destruct (Z.leb_spec a (-1)); [lia |].
    destruct (Z.leb_spec (panels c) a); lia. }
  split; [apply correctPosition_swiping |].
  split; [| exists a'; split; [exact Hact | exact Ha']].
  rewrite (activeIndicator_Fin (correctPosition p c) a')
    by (rewrite ?panels_correctPosition; (assumption || lia)).
  rewrite (activeIndicator_Fin c a) by (assumption || lia).
  rewrite panels_correctPosition. f_equal.
  destruct Ha' as (_ & Hlo & Hhi & Hin).
  destruct (Z_le_gt_dec a (-1)) as [H1 | H1].
  - rewrite (Hlo H1). rewrite <- (Z.mul_1_l (panels c)) at 1.
    apply Z_mod_plus_full.
  - destruct (Z_le_gt_dec (panels c) a) as [H2 | H2].
    + rewrite (Hhi H2).
      replace (a - panels c) with (a + (-1) * panels c) by lia.
      apply Z_mod_plus_full.
    + now rewrite Hin by lia.
Qed.

(** ** Initialization *)

Lemma state_autoplay p c : state (autoplay p c) = state c.
Proof. unfold autoplay. now destruct (_ && _). Qed.

Lemma children_autoplay p c : children (autoplay p c) = children c.
Proof. unfold autoplay. now destruct (_ && _). Qed.

Lemma initialize_active p r c requested :
  active (state (initialize p (Some r) c requested)) =
  if truthy (count c) then JS.min (sub (count c) (Fin 1)) requested
  else requested.
Proof.
  unfold initialize. rewrite state_autoplay. reflexivity.
Qed.

(** C10.  An initialization that is carried out (the root element is
    there and visible, measured as [r]) clamps the requested index from
    above only: with at least one panel the stored active index is
    [Math.min(count - 1, requested)], which for an integer request is the
    smaller of the two and for a negative request is the request itself;
    [swiping] is set and every panel offset is 0.  An initialization
    requested while the root element is missing or hidden is skipped and
    changes nothing. *)
Theorem C10_initialize_clamps_above (p : Props) (r : Rect) (c : Component)
    (requested : num) :
  (0 < panels c ->
   active (state (initialize p (Some r) c requested)) =
     JS.min (Fin (panels c - 1)) requested /\
   forall q, requested = Fin q ->
     active (state (initialize p (Some r) c requested)) =
       Fin (Z.min (panels c - 1) q) /\
     (q < 0 ->
      active (state (initialize p (Some r) c requested)) = Fin q)) /\
  swiping (state (initialize p (Some r) c requested)) = true /\
  length (children (initialize p (Some r) c requested)) =
    length (children c) /\
  Forall (fun o => o = Fin 0) (children (initialize p (Some r) c requested)) /\
  initialize p None c requested = c.
Proof.
  split; [| split; [| split; [| split; [| reflexivity]]]].
  - intros Hn. rewrite initialize_active.
    change (count c) with (Fin (panels c)). rewrite truthy_Fin.
    destruct (Z.eqb_spec (panels c) 0) as [|_]; [lia |]. simpl negb. cbv iota.
    split; [reflexivity |].
    intros q ->. simpl sub. rewrite min_Fin.
    replace (panels c + - (1)) with (panels c - 1) by lia.
    split; [reflexivity |]. intros Hq. f_equal. lia.
  - unfold initialize. rewrite state_autoplay. reflexivity.
  - unfold initialize. rewrite children_autoplay. simpl.
    apply length_map.
  - unfold initialize. rewrite children_autoplay. simpl.
    induction (children c) as [| o l IH]; simpl; constructor;
      [reflexivity | exact IH].
Qed.

(** ** The loop edges *)

Lemma children_move_loop p c pace off e :
  loop p = true -> 1 < panels c ->
  children (move p c pace off e) =
  children
    (move_edges p c (getTargetOffset p c (getTargetActive p c pace) off)).
Proof.
  intros Hl Hn. unfold move. rewrite leb_count_1, Hl.
  destruct (Z.leb_spec (panels c) 1); [lia |].
  now destruct (e && sne (getTargetActive p c pace) (active (state c))).
Qed.

Lemma last_index_pos c : 1 < panels c -> (0 < last_index c < length (children c))%nat.
Proof. unfold panels, last_index. lia. Qed.

Lemma move_edges_first p c t :
  1 < panels c ->
  children (move_edges p c t) !! 0%nat =
  if sne t (minOffset p c)
  then Some (if ltb t (minOffset p c) then trackSize p c else Fin 0)
  else children c !! 0%nat.
Proof.
  intros Hn. pose proof (last_index_pos c Hn) as Hlast.
  unfold move_edges, setOffset.
  destruct (sne t (minOffset p c)), (sne t (Fin 0)); simpl;
    rewrite ?list_lookup_insert_ne by lia;
    rewrite ?list_lookup_insert_eq by lia; reflexivity.
Qed.

Lemma move_edges_last p c t :
  1 < panels c ->
  children (move_edges p c t) !! last_index c =
  if sne t (Fin 0)
  then Some (if gtb t (Fin 0) then neg (trackSize p c) else Fin 0)
  else children c !! last_index c.
Proof.
  intros Hn. pose proof (last_index_pos c Hn) as Hlast.
  unfold move_edges, setOffset.
  destruct (sne t (minOffset p c)), (sne t (Fin 0)); simpl;
    rewrite ?list_lookup_insert_eq by (rewrite ?length_insert; lia);
    rewrite ?list_lookup_insert_ne by lia; reflexivity.
Qed.

(** C6.  In loop mode with more than one panel, let [t] be the offset a
    move stores.  When [t] is not [minOffset], the first panel's offset is
    [trackSize] if [t < minOffset] and 0 otherwise; when [t] is not 0, the
    last panel's offset is [- trackSize] if [t > 0] and 0 otherwise.  A
    panel whose condition fails keeps its offset. *)
Theorem C6_loop_edge_panels (p : Props) (c : Component) (pace off : num)
    (e : bool) :
  loop p = true -> 1 < panels c ->
  let c' := move p c pace off e in
  let t := offset (state c') in
  (sne t (minOffset p c) = true ->
   children c' !! 0%nat =
     Some (if ltb t (minOffset p c) then trackSize p c else Fin 0)) /\
  (sne t (Fin 0) = true ->
   children c' !! last_index c =
     Some (if gtb t (Fin 0) then neg (trackSize p c) else Fin 0)) /\
  (sne t (minOffset p c) = false ->
   children c' !! 0%nat = children c !! 0%nat) /\
  (sne t (Fin 0) = false ->
   children c' !! last_index c = children c !! last_index c).
Proof.
  intros Hl Hn c' t. subst c' t.
  rewrite offset_move by assumption.
  rewrite children_move_loop by assumption.
  rewrite move_edges_first, move_edges_last by assumption.
  repeat split; intros ->; reflexivity.
Qed.

(** ** Instances of the resolver, the indicator and the single-panel case *)



Lemma C3_activeIndicator_normalized_witness :
  activeIndicator loop3_before = Fin ((-1) mod 3) /\ 0 <= (-1) mod 3 < 3.
Proof.
  apply (C3_activeIndicator_normalized loop3_before (-1));
    [reflexivity | reflexivity | vm_compute; split; discriminate].
Defined.

Lemma C5_move_noop_single_panel_witness :
  let p := props_with true None in
  let c := mounted p 100 1 0 in
  move p c (Fin 1) (Fin 30) true = c /\
  active (state (move p c (Fin 1) (Fin 30) true)) = active (state c) /\
  offset (state (move p c (Fin 1) (Fin 30) true)) = offset (state c) /\
  children (move p c (Fin 1) (Fin 30) true) = children c /\
  emitted (move p c (Fin 1) (Fin 30) true) = emitted c.
Proof.
  apply (C5_move_noop_single_panel (props_with true None)
           (mounted (props_with true None) 100 1 0) (Fin 1) (Fin 30) true).
  vm_compute. discriminate.
Defined.

(** ** The offset bounds outside loop mode *)

Lemma getTargetActive_flat p c a pace s m :
  loop p = false -> active (state c) = Fin a ->
  size p c = Fin s -> s <> 0 -> minOffset p c = Fin m ->
  getTargetActive p c (Fin pace) =
  Fin (if pace =? 0 then a
       else Z.min (Z.max (a + pace) 0) (ceil_div (Z.abs m) s)).
Proof.
  intros Hl Ha Hs Hs0 Hm. unfold getTargetActive.
  rewrite Hl, Ha, truthy_Fin, (maxCount_Fin p c s m Hs Hs0 Hm).
  destruct (pace =? 0); simpl; [reflexivity | apply range_Fin].
Qed.

Lemma getTargetOffset_flat p c t off s m :
  loop p = false -> size p c = Fin s -> minOffset p c = Fin m ->
  getTargetOffset p c (Fin t) (Fin off) =
  Fin (Z.min (Z.max (off - Z.min (t * s) (- m)) m) 0).
Proof.
  intros Hl Hs Hm. unfold getTargetOffset. rewrite Hl, Hs, Hm. simpl.
  rewrite min_Fin. simpl. rewrite range_Fin. reflexivity.
Qed.

(** C2, as the code has it.  Outside loop mode, on integer values with a
    positive panel size and [minOffset <= 0] (the track is at least as
    long as the container), the offset stored by a move lies in
    [minOffset .. 0], for every pace and every drag offset; with at most
    one panel the move changes nothing, so the bound holds after it when
    it held before. *)
Theorem C2_offset_in_bounds_after_move (p : Props) (c : Component)
    (a s m pace off : Z) (e : bool) :
  loop p = false ->
  active (state c) = Fin a ->
  size p c = Fin s -> 0 < s ->
  minOffset p c = Fin m -> m <= 0 ->
  1 < panels c \/ offset_in_bounds p c ->
  offset_in_bounds p (move p c (Fin pace) (Fin off) e).
Proof.
  intros Hl Ha Hs Hs0 Hm Hm0 [Hn | Hb].
  - unfold offset_in_bounds. rewrite minOffset_move, Hm.
    rewrite offset_move by assumption.
    rewrite (getTargetActive_flat p c a pace s m) by (assumption || lia).
    rewrite (getTargetOffset_flat p c _ off s m) by assumption.
    eexists _, _. split; [reflexivity |]. split; [reflexivity |]. lia.
  - destruct (Z_le_gt_dec (panels c) 1) as [H1 | H1].
    + now rewrite move_few.
    + unfold offset_in_bounds. rewrite minOffset_move, Hm.
      rewrite offset_move by lia.
      rewrite (getTargetActive_flat p c a pace s m) by (assumption || lia).
      rewrite (getTargetOffset_flat p c _ off s m) by assumption.
      eexists _, _. split; [reflexivity |]. split; [reflexivity |]. lia.
Qed.

Lemma C2_offset_in_bounds_after_move_witness :
  offset_in_bounds (props_with false None)
    (move (props_with false None) flat3 (Fin 1) (Fin (-40)) false).
Proof.
  apply (C2_offset_in_bounds_after_move (props_with false None) flat3
           0 100 (-200) 1 (-40) false);
    try reflexivity; try lia.
  left. reflexivity.
Defined.

(** C2 fails as stated when the track is shorter than the container:
    three panels of 100 pixels in 500 pixels give [minOffset = 200], and
    a move by one pace stores the offset 0, which is below it. *)
Lemma C2_counterexample :
  loop narrow_props = false /\
  minOffset narrow_props narrow3 = Fin 200 /\
  offset (state (move narrow_props narrow3 (Fin 1) (Fin 0) false)) = Fin 0 /\
  ~ offset_in_bounds narrow_props
      (move narrow_props narrow3 (Fin 1) (Fin 0) false).
Proof.
  repeat split.
  intros (m & o & Hm & Ho & Hb).
  vm_compute in Hm, Ho.
  injection Hm as <-. injection Ho as <-. lia.
Qed.

(** With a panel size of 0 (here: before the first measurement) the
    quotient in [maxCount] is [0 / 0]: a move by a nonzero pace stores
    NaN as active index and as offset. *)
Example move_before_measurement :
  let c := move (props_with false None) (fresh 3) (Fin 1) (Fin 0) false in
  active (state c) = NaN /\ offset (state c) = NaN.
Proof. split; reflexivity. Qed.

(** ** Touch end *)

Lemma abs_quot_gt_quarter_spec d t :
  abs_quot_gt_quarter d t = true <-> speed_over_quarter d t.
Proof.
  unfold abs_quot_gt_quarter, speed_over_quarter.
  destruct (Z.eqb_spec t 0) as [-> | Ht].
  - rewrite negb_true_iff, Z.eqb_neq. lia.
  - rewrite Z.ltb_lt. lia.
Qed.

Lemma abs_gt_half_spec d s :
  abs_gt_half d (Fin s) = true <-> over_half d s.
Proof.
  unfold abs_gt_half, over_half. rewrite gtb_Fin. apply Z.ltb_lt.
Qed.

Lemma speed_gt_quarter_spec p now c :
  speed_gt_quarter p now c = true <->
  exists start,
    touchStartTime c = Some start /\
    speed_over_quarter (delta p c) (now - start).
Proof.
  unfold speed_gt_quarter.
  destruct (touchStartTime c) as [start |].
  - rewrite abs_quot_gt_quarter_spec. split.
    + intros H. now exists start.
    + intros (start' & E & H). now injection E as <-.
  - split; [discriminate | intros (start & E & _); discriminate].
Qed.

Lemma commit_reflect p now c s :
  size p c = Fin s ->
  (speed_gt_quarter p now c || abs_gt_half (delta p c) (size p c))
  && isCorrectDirection p c = true
  <-> commit_condition p now c s.
Proof.
  intros ->. unfold commit_condition.
  rewrite andb_true_iff, orb_true_iff,
    speed_gt_quarter_spec, abs_gt_half_spec.
  tauto.
Qed.

Lemma flat_pace_code d s :
  s <> 0 ->
  neg ((if 0 <? d then ceil_quot else floor_quot) (Fin d) (Fin s)) =
  Fin (flat_pace d s).
Proof.
  intros Hs. unfold flat_pace.
  destruct (Z.ltb_spec 0 d) as [Hd | Hd].
  - rewrite ceil_quot_Fin by assumption. simpl. f_equal.
    rewrite Z.sgn_pos, Z.abs_eq by lia. lia.
  - rewrite floor_quot_Fin by assumption. simpl. f_equal.
    unfold floor_div, ceil_div.
    destruct (Z.eq_dec d 0) as [-> | Hd0].
    + simpl. now rewrite Z.div_0_l by assumption.
    + rewrite Z.sgn_neg, Z.abs_neq by lia.
      rewrite Z.opp_involutive. lia.
Qed.

(** C4, as the code has it.  When the component is not touchable or
    [swiping] is not set, [onTouchEnd] returns at its guard and leaves
    the whole component as it is: no move, no notification, [swiping]
    and the autoplay timer untouched.  Past that guard, with an integer
    panel size [s], the handler issues a move with notification exactly
    when [commit_condition] holds; its pace is [loop_pace] of the touch
    offset and delta in loop mode and [flat_pace] of the delta and [s]
    otherwise.  A gesture that does not commit issues a move of pace 0
    without notification when its delta is not 0, and no move when it
    is 0. *)
Theorem C4_touch_end_commit (p : Props) (now : Z) (c : Component) (s : Z) :
  (touchable p = false \/ swiping (state c) = false ->
   onTouchEnd p now c = c) /\
  (touchable p = true -> swiping (state c) = true -> size p c = Fin s ->
   onTouchEnd p now c =
     autoplay p
       (set_swiping (perform p c (onTouchEnd_issue p now c)) false) /\
   (commit_condition p now c s <->
    exists pace, onTouchEnd_issue p now c = MoveWith pace true) /\
   (commit_condition p now c s -> loop p = true ->
    onTouchEnd_issue p now c =
      MoveWith (Fin (loop_pace (main_offset p c) (delta p c))) true) /\
   (commit_condition p now c s -> loop p = false -> s <> 0 ->
    onTouchEnd_issue p now c =
      MoveWith (Fin (flat_pace (delta p c) s)) true) /\
   (~ commit_condition p now c s -> delta p c <> 0 ->
    onTouchEnd_issue p now c = MoveWith (Fin 0) false) /\
   (~ commit_condition p now c s -> delta p c = 0 ->
    onTouchEnd_issue p now c = NoMove)).
Proof.
  split.
  { intros [Ht | Hsw]; unfold onTouchEnd.
    - now rewrite Ht.
    - rewrite Hsw. now rewrite orb_true_r. }
  intros Ht Hsw Hs.
  pose proof (commit_reflect p now c s Hs) as Hc.
  split.
  { unfold onTouchEnd. now rewrite Ht, Hsw. }
  unfold onTouchEnd_issue.
  destruct ((speed_gt_quarter p now c || abs_gt_half (delta p c) (size p c))
            && isCorrectDirection p c) eqn:Hb.
  - assert (Hcc : commit_condition p now c s) by now apply Hc.
    split; [split; [intros _; eexists; reflexivity | intros _; exact Hcc] |].
    split; [| split; [| split; intros Hn; contradiction]].
    + intros _ Hl. rewrite Hl. unfold loop_pace, main_offset.
      now destruct (0 <? _), (0 <? delta p c).
    + intros _ Hl Hs0. rewrite Hl, Hs.
      now rewrite flat_pace_code.
  - assert (Hcc : ~ commit_condition p now c s).
    { intros H. apply Hc in H. discriminate. }
    split.
    { split; [intros H; contradiction |].
      intros [pace H]. destruct (delta p c =? 0); discriminate. }
    split; [intros H; contradiction |].
    split; [intros H; contradiction |].
    split; intros _ Hd.
    + destruct (Z.eqb_spec (delta p c) 0); [contradiction | reflexivity].
    + rewrite Hd. reflexivity.
Qed.

Lemma C4_touch_end_commit_witness :
  commit_condition (props_with true None) 100 dragged3 100 /\
  onTouchEnd_issue (props_with true None) 100 dragged3 = MoveWith (Fin 1) true /\
  emitted (onTouchEnd (props_with true None) 100 dragged3) = [Fin 1] /\
  onTouchEnd (props_with true None) 100 interrupted3 = interrupted3.
Proof.
  destruct (C4_touch_end_commit (props_with true None) 100 interrupted3 100)
    as (Hguard & _).
  destruct (C4_touch_end_commit (props_with true None) 100 dragged3 100)
    as (_ & Hopen).
  destruct (Hopen eq_refl eq_refl eq_refl) as (Hend & Hiff & Hloop & _).
  assert (Hc : commit_condition (props_with true None) 100 dragged3 100).
  { apply Hiff. eexists. reflexivity. }
  split; [exact Hc |]. split; [exact (Hloop Hc eq_refl) |].
  split; [rewrite Hend; reflexivity |].
  apply Hguard. right. reflexivity.
Defined.

(** C4 fails as stated when [swiping] is not set at the touch end: the
    gesture of [interrupted3] runs along the axis at 0.8 pixels per
    millisecond, yet the handler returns at its guard, where a commit
    would have emitted a ['change']. *)
Lemma C4_counterexample :
  touchable (props_with true None) = true /\
  swiping (state interrupted3) = false /\
  commit_condition (props_with true None) 100 interrupted3 100 /\
  onTouchEnd (props_with true None) 100 interrupted3 = interrupted3 /\
  emitted
    (perform (props_with true None) interrupted3
       (onTouchEnd_issue (props_with true None) 100 interrupted3))
  <> emitted interrupted3.
Proof.
  split; [reflexivity |]. split; [reflexivity |].
  split; [| split; [reflexivity | vm_compute; discriminate]].
  split; [reflexivity |]. left. exists 0. split; [reflexivity |].
  left. vm_compute. split; [discriminate | reflexivity].
Qed.

(** ** [swipeTo] *)

Lemma swipeTo_target_rem p c i :
  1 < panels c -> ~ (loop p = true /\ i = panels c) ->
  swipeTo_target p c (Fin i) = Fin (Z.rem i (panels c)).
Proof.
  intros Hn Hsp. unfold swipeTo_target.
  change (count c) with (Fin (panels c)). rewrite seq_Fin.
  destruct (loop p) eqn:Hl; simpl.
  - destruct (Z.eqb_spec i (panels c)) as [Hi | Hi]; [tauto |].
    apply rem_Fin. lia.
  - apply rem_Fin. lia.
Qed.

(** C7, as the code has it.  With more than one panel, [swipeTo] turns
    every integer index into a move with notification whose pace is the
    target index minus the active index.  Apart from the loop-mode case
    [index = count], the target index is the remainder [index % count],
    which has the sign of [index] and is smaller than [count] in absolute
    value: for [index >= 0] it is [index mod count], in [0 .. count - 1];
    for [index < 0] it lies in [-(count - 1) .. 0].  In the loop-mode
    case [index = count] the target is 0 when the active index is 0 and
    [count] otherwise. *)
Theorem C7_swipeTo_target_index (p : Props) (c : Component) (index : Z)
    (immediate : bool) :
  1 < panels c ->
  swipeTo_frame p (Fin index) immediate c =
    move p (if immediate then c else set_swiping c false)
      (sub (swipeTo_target p c (Fin index)) (active (state c))) (Fin 0) true /\
  (~ (loop p = true /\ index = panels c) ->
   swipeTo_target p c (Fin index) = Fin (Z.rem index (panels c)) /\
   Z.abs (Z.rem index (panels c)) < panels c /\
   (0 <= index ->
    Z.rem index (panels c) = index mod panels c /\
    0 <= index mod panels c < panels c) /\
   (index < 0 -> - panels c < Z.rem index (panels c) <= 0)) /\
  (loop p = true -> index = panels c ->
   swipeTo_target p c (Fin index) =
     if seq (active (state c)) (Fin 0) then Fin 0 else Fin (panels c)).
Proof.
  intros Hn. split; [| split].
  - unfold swipeTo_frame. now destruct immediate.
  - intros Hsp. split; [now apply swipeTo_target_rem |].
    pose proof (Z.rem_bound_pos (Z.abs index) (panels c)) as Hpos.
    pose proof (Z.rem_abs index (panels c) ltac:(lia)) as Habs.
    rewrite (Z.abs_eq (panels c)) in Habs by lia.
    split; [lia |]. split.
    + intros Hi. rewrite Z.rem_mod_nonneg by lia.
      split; [reflexivity | apply Z.mod_pos_bound; lia].
    + intros Hi. apply Z.rem_bound_pos_neg; lia.
  - intros Hl ->. unfold swipeTo_target. rewrite Hl.
    change (count c) with (Fin (panels c)).
    rewrite seq_Fin, Z.eqb_refl. reflexivity.
Qed.

Lemma C7_swipeTo_target_index_witness :
  swipeTo_target (props_with false None) flat3 (Fin 7) = Fin (Z.rem 7 3) /\
  Z.rem 7 3 = 7 mod 3 /\ 0 <= 7 mod 3 < 3.
Proof.
  destruct (C7_swipeTo_target_index (props_with false None) flat3 7 false
              eq_refl) as (_ & H & _).
  destruct H as (Ht & _ & Hpos & _).
  { intros [Hl _]. discriminate Hl. }
  split; [exact Ht |]. apply Hpos. lia.
Defined.

(** C7 fails as stated on a negative index: [swipeTo(-1)] on three
    panels resolves the target index -1, which is neither in
    [0 .. count - 1] nor the residue 2 of -1 modulo 3. *)
Lemma C7_counterexample :
  swipeTo_target (props_with false None) flat3 (Fin (-1)) = Fin (-1) /\
  ~ (exists t,
       swipeTo_target (props_with false None) flat3 (Fin (-1)) = Fin t /\
       0 <= t < panels flat3 /\ t = (-1) mod panels flat3).
Proof.
  split; [reflexivity |].
  intros (t & Ht & Hr & _). vm_compute in Ht. injection Ht as <-.
  destruct Hr as [Hr _]. apply Hr. reflexivity.
Qed.

(** ** Change notifications *)

Lemma same_geometry_trans c1 c2 c3 :
  same_geometry c1 c2 -> same_geometry c2 c3 -> same_geometry c1 c3.
Proof.
  intros (H1 & H2 & H3 & H4) (K1 & K2 & K3 & K4).
  repeat split; congruence.
Qed.

Lemma same_geometry_move p c pace off e :
  same_geometry c (move p c pace off e).
Proof.
  split; [apply panels_move |].
  destruct (frame_move p c pace off e) as (Hr & Hw & Hh & _).
  now repeat split.
Qed.

Lemma same_geometry_correctPosition p c :
  same_geometry c (correctPosition p c).
Proof.
  unfold correctPosition.
  destruct (leb _ _); [| destruct (geb _ _)];
    try apply (same_geometry_trans _ (set_swiping c true));
    try apply same_geometry_move; now repeat split.
Qed.

Lemma same_geometry_size p c c' :
  same_geometry c c' -> size p c' = size p c.
Proof.
  intros (_ & _ & Hw & Hh). unfold size. now rewrite Hw, Hh.
Qed.

Lemma same_geometry_count c c' : same_geometry c c' -> count c' = count c.
Proof.
  intros (Hn & _). change (Fin (panels c') = Fin (panels c)). now rewrite Hn.
Qed.

Lemma same_geometry_maxCount p c c' :
  same_geometry c c' -> maxCount p c' = maxCount p c.
Proof.
  intros H. unfold maxCount, minOffset.
  rewrite (same_geometry_size p c c' H), (same_geometry_count c c' H).
  destruct H as (_ & -> & _). reflexivity.
Qed.

(** On a measured component [maxCount] is a natural number. *)
Lemma measured_maxCount p c :
  measured p c -> loop p = false ->
  exists mc, maxCount p c = Fin mc /\ 0 <= mc.
Proof.
  intros [Hl | (s & Hs & Hs0)] Hf; [congruence |].
  pose proof (minOffset_Fin p c s Hs) as Hm.
  set (m := match rect (state c) with
            | Some r => base_of p r - s * panels c
            | None => 0
            end) in Hm.
  exists (ceil_div (Z.abs m) s). split.
  - apply (maxCount_Fin p c s m Hs); [lia | exact Hm].
  - apply ceil_div_nonneg; lia.
Qed.

Lemma getTargetActive_resolve p c a pace mc :
  active (state c) = Fin a ->
  (loop p = false -> maxCount p c = Fin mc) ->
  getTargetActive p c (Fin pace) = Fin (resolve (loop p) (panels c) mc a pace).
Proof.
  intros Ha Hmc. unfold getTargetActive, resolve.
  rewrite Ha, truthy_Fin.
  destruct (pace =? 0); simpl; [reflexivity |].
  destruct (loop p).
  - change (count c) with (Fin (panels c)). apply range_Fin.
  - rewrite Hmc by reflexivity. apply range_Fin.
Qed.

(** The target of any move from an integer active index is an integer:
    the old index, or an index that is at least -1. *)
Lemma getTargetActive_finite p c a pace :
  active (state c) = Fin a -> measured p c ->
  exists t, getTargetActive p c pace = Fin t /\ (t = a \/ -1 <= t).
Proof.
  intros Ha Hmeas. unfold getTargetActive. rewrite Ha.
  destruct (truthy pace) eqn:Htr; [| exists a; now split; [| left]].
  destruct (loop p) eqn:Hl.
  - change (count c) with (Fin (panels c)).
    pose proof (panels_nonneg c) as Hn.
    destruct pace as [q | | |]; simpl in Htr; try discriminate; simpl add.
    + rewrite range_Fin. eexists; split; [reflexivity | lia].
    + exists (panels c). split; [reflexivity | lia].
    + unfold range. change (JS.max NInf (Fin (-1))) with (Fin (-1)).
      rewrite min_Fin. eexists; split; [reflexivity | lia].
  - destruct (measured_maxCount p c Hmeas Hl) as (mc & -> & Hmc).
    destruct pace as [q | | |]; simpl in Htr; try discriminate; simpl add.
    + rewrite range_Fin. eexists; split; [reflexivity | lia].
    + exists mc. split; [reflexivity | lia].
    + unfold range. change (JS.max NInf (Fin 0)) with (Fin 0).
      rewrite min_Fin. eexists; split; [reflexivity | lia].
Qed.

(** [!==] against an integer is inequality. *)
Lemma sne_Fin_r x a : sne x (Fin a) = true <-> x <> Fin a.
Proof.
  destruct x as [b | | |]; try (split; [discriminate | reflexivity]).
  rewrite sne_Fin, negb_true_iff, Z.eqb_neq.
  split; [congruence | intros H E; apply H; now rewrite E].
Qed.

Lemma correctPosition_in_range p c a :
  active (state c) = Fin a -> 0 <= a < panels c ->
  correctPosition p c = set_swiping c true.
Proof.
  intros Ha Hr. unfold correctPosition.
  change (active (state (set_swiping c true))) with (active (state c)).
  change (count (set_swiping c true)) with (Fin (panels c)).
  rewrite Ha, leb_Fin, geb_Fin.
  destruct (Z.leb_spec a (-1)); [lia |].
  destruct (Z.leb_spec (panels c) a); [lia | reflexivity].
Qed.

Lemma correctPosition_few p c :
  panels c <= 1 -> correctPosition p c = set_swiping c true.
Proof.
  intros Hn. unfold correctPosition.
  destruct (leb _ _); [| destruct (geb _ _)];
    now rewrite ?(move_few p (set_swiping c true)) by exact Hn.
Qed.

Lemma correctPosition_finite p c a :
  active (state c) = Fin a -> measured p c ->
  exists a0, active (state (correctPosition p c)) = Fin a0.
Proof.
  intros Ha Hmeas.
  destruct (Z_le_gt_dec (panels c) 1) as [Hn | Hn].
  - rewrite correctPosition_few by assumption. now exists a.
  - assert (Hn' : 1 < panels (set_swiping c true)) by (change (1 < panels c); lia).
    unfold correctPosition.
    destruct (leb _ _); [| destruct (geb _ _)];
      rewrite ?active_move by exact Hn'.
    + destruct (getTargetActive_finite p (set_swiping c true) a
                  (count (set_swiping c true)) Ha Hmeas) as (t & -> & _).
      now exists t.
    + destruct (getTargetActive_finite p (set_swiping c true) a
                  (neg (count (set_swiping c true))) Ha Hmeas) as (t & -> & _).
      now exists t.
    + now exists a.
Qed.

(** A whole [swipeTo] on more than one panel, seen from the component
    that [correctPosition] leaves. *)
Lemma swipeTo_big p c idx imm :
  1 < panels c ->
  active (state (swipeTo p idx imm c)) =
    getTargetActive p (correctPosition p c)
      (sub (swipeTo_target p (correctPosition p c) idx)
           (active (state (correctPosition p c)))) /\
  (sne (getTargetActive p (correctPosition p c)
          (sub (swipeTo_target p (correctPosition p c) idx)
               (active (state (correctPosition p c)))))
       (active (state (correctPosition p c))) = false ->
   emitted (swipeTo p idx imm c) = emitted c).
Proof.
  intros Hn.
  assert (Hn0 : 1 < panels (correctPosition p c))
    by now rewrite panels_correctPosition.
  unfold swipeTo, swipeTo_settle, swipeTo_frame, nav_sync.
  destruct imm.
  - split.
    + change (active (state (set_swiping ?x false))) with (active (state x)).
      now rewrite active_move by exact Hn0.
    + intros Hs.
      change (emitted (set_swiping ?x false)) with (emitted x).
      rewrite emitted_move.
      change (getTargetActive p (set_touch ?x touch_reset))
        with (getTargetActive p x).
      change (swipeTo_target p (set_touch ?x touch_reset))
        with (swipeTo_target p x).
      change (active (state (set_touch ?x touch_reset)))
        with (active (state x)).
      rewrite Hs, !andb_false_r. apply emitted_correctPosition.
  - split.
    + now rewrite active_move by exact Hn0.
    + intros Hs. rewrite emitted_move.
      change (getTargetActive p
                (set_swiping (set_touch ?x touch_reset) false))
        with (getTargetActive p x).
      change (active (state (set_swiping (set_touch ?x touch_reset) false)))
        with (active (state x)).
      change (swipeTo_target p (set_touch ?x touch_reset))
        with (swipeTo_target p x).
      rewrite Hs, !andb_false_r. apply emitted_correctPosition.
Qed.

(** The events of a whole [swipeTo] on more than one panel. *)
Lemma swipeTo_emitted p c idx imm :
  1 < panels c ->
  emitted (swipeTo p idx imm c) =
  if sne (getTargetActive p (correctPosition p c)
            (sub (swipeTo_target p (correctPosition p c) idx)
                 (active (state (correctPosition p c)))))
         (active (state (correctPosition p c)))
  then emitted c ++ [activeIndicator (swipeTo p idx imm c)]
  else emitted c.
Proof.
  intros Hn.
  assert (Hn0 : (1 <? panels (correctPosition p c)) = true)
    by (rewrite panels_correctPosition; now apply Z.ltb_lt).
  unfold swipeTo, swipeTo_settle, swipeTo_frame, nav_sync.
  destruct imm.
  - change (emitted (set_swiping ?x false)) with (emitted x).
    change (activeIndicator (set_swiping ?x false)) with (activeIndicator x).
    rewrite emitted_move.
    change (panels (set_touch ?x touch_reset)) with (panels x).
    change (getTargetActive p (set_touch ?x touch_reset))
      with (getTargetActive p x).
    change (swipeTo_target p (set_touch ?x touch_reset))
      with (swipeTo_target p x).
    change (active (state (set_touch ?x touch_reset)))
      with (active (state x)).
    change (emitted (set_touch ?x touch_reset)) with (emitted x).
    rewrite Hn0, emitted_correctPosition. reflexivity.
  - rewrite emitted_move.
    change (panels (set_swiping (set_touch ?x touch_reset) false))
      with (panels x).
    change (getTargetActive p
              (set_swiping (set_touch ?x touch_reset) false))
      with (getTargetActive p x).
    change (active (state (set_swiping (set_touch ?x touch_reset) false)))
      with (active (state x)).
    change (swipeTo_target p (set_touch ?x touch_reset))
      with (swipeTo_target p x).
    change (emitted (set_swiping (set_touch ?x touch_reset) false))
      with (emitted x).
    rewrite Hn0, emitted_correctPosition. reflexivity.
Qed.

Lemma same_geometry_swipeTo p c idx imm :
  same_geometry c (swipeTo p idx imm c).
Proof.
  apply (same_geometry_trans _ (correctPosition p c));
    [apply same_geometry_correctPosition |].
  unfold swipeTo, swipeTo_settle, swipeTo_frame, nav_sync.
  destruct imm.
  - destruct (same_geometry_move p
                (set_touch (correctPosition p c) touch_reset)
                (sub (swipeTo_target p
                        (set_touch (correctPosition p c) touch_reset) idx)
                     (active (state
                        (set_touch (correctPosition p c) touch_reset))))
                (Fin 0) true) as (H1 & H2 & H3 & H4).
    now repeat split.
  - destruct (same_geometry_move p
                (set_swiping (set_touch (correctPosition p c) touch_reset)
                   false)
                (sub (swipeTo_target p
                        (set_touch (correctPosition p c) touch_reset) idx)
                     (active (state
                        (set_swiping
                           (set_touch (correctPosition p c) touch_reset)
                           false))))
                (Fin 0) true) as (H1 & H2 & H3 & H4).
    now repeat split.
Qed.

Lemma swipeTo_few p c idx imm :
  panels c <= 1 ->
  active (state (swipeTo p idx imm c)) = active (state c) /\
  emitted (swipeTo p idx imm c) = emitted c.
Proof.
  intros Hn.
  unfold swipeTo, swipeTo_settle, swipeTo_frame, nav_sync.
  rewrite (correctPosition_few p c Hn).
  destruct imm; rewrite move_few by exact Hn; now split.
Qed.

Lemma measured_bound p c :
  measured p c ->
  exists mc, 0 <= mc /\ (loop p = false -> maxCount p c = Fin mc).
Proof.
  intros Hmeas. destruct (loop p) eqn:Hl.
  - exists 0. split; [lia | discriminate].
  - destruct (measured_maxCount p c Hmeas Hl) as (mc & Hmc & H0).
    exists mc. now split.
Qed.

(** Resolving the same target index twice, for a target that may be
    negative outside loop mode. *)
Lemma resolve_twice_rem lp n mc a0 t :
  - n < t < n -> 0 <= mc ->
  (lp = true -> 0 <= t) -> (lp = false -> 0 <= a0) ->
  0 <= resolve lp n mc a0 (t - a0) < n /\
  resolve lp n mc (resolve lp n mc a0 (t - a0))
    (t - resolve lp n mc a0 (t - a0)) = resolve lp n mc a0 (t - a0).
Proof.
  intros Ht Hmc Hloop Hflat. unfold resolve.
  destruct (Z.eqb_spec (t - a0) 0) as [E | E].
  - assert (a0 = t) as -> by lia.
    rewrite ?Z.sub_diag. simpl.
    split; [destruct lp; [specialize (Hloop eq_refl)
                         | specialize (Hflat eq_refl)]; lia
           | reflexivity].
  - destruct lp.
    + specialize (Hloop eq_refl).
      replace (Z.min (Z.max (a0 + (t - a0)) (-1)) n) with t by lia.
      now rewrite Z.sub_diag.
    + set (r := Z.min (Z.max (a0 + (t - a0)) 0) mc).
      assert (Hr : r = Z.min (Z.max t 0) mc) by (subst r; lia).
      split; [lia |].
      destruct (Z.eqb_spec (t - r) 0); [reflexivity | lia].
Qed.

(** Outside loop mode [correctPosition] leaves no negative index. *)
Lemma correctPosition_flat_nonneg p c a mc :
  loop p = false -> 1 < panels c -> active (state c) = Fin a ->
  maxCount p c = Fin mc -> 0 <= mc ->
  exists a0, active (state (correctPosition p c)) = Fin a0 /\ 0 <= a0.
Proof.
  intros Hl Hn Ha Hmc Hmc0. unfold correctPosition.
  change (active (state (set_swiping c true))) with (active (state c)).
  change (count (set_swiping c true)) with (Fin (panels c)).
  rewrite Ha, leb_Fin, geb_Fin.
  destruct (Z.leb_spec a (-1)); [| destruct (Z.leb_spec (panels c) a)].
  - rewrite active_move by exact Hn.
    rewrite (getTargetActive_resolve p (set_swiping c true) a _ mc Ha)
      by (intros _; exact Hmc).
    unfold resolve. rewrite Hl.
    destruct (Z.eqb_spec (panels c) 0); [lia |].
    eexists; split; [reflexivity | lia].
  - rewrite active_move by exact Hn. simpl neg.
    rewrite (getTargetActive_resolve p (set_swiping c true) a _ mc Ha)
      by (intros _; exact Hmc).
    unfold resolve. rewrite Hl.
    destruct (Z.eqb_spec (- panels c) 0); [lia |].
    eexists; split; [reflexivity | lia].
  - exists a. split; [exact Ha | lia].
Qed.

(** A second [swipeTo] to the same index on more than one panel: any
    index outside loop mode; in loop mode an index other than [count]
    whose remainder [index % count] is not negative. *)
Lemma swipeTo_twice_rem p c a i imm1 imm2 :
  active (state c) = Fin a -> measured p c -> 1 < panels c ->
  ~ (loop p = true /\ i = panels c) ->
  (loop p = true -> 0 <= Z.rem i (panels c)) ->
  active (state (swipeTo p (Fin i) imm2 (swipeTo p (Fin i) imm1 c))) =
    active (state (swipeTo p (Fin i) imm1 c)) /\
  emitted (swipeTo p (Fin i) imm2 (swipeTo p (Fin i) imm1 c)) =
    emitted (swipeTo p (Fin i) imm1 c).
Proof.
  intros Ha Hmeas Hn1 Hsp Hrem.
  pose proof (same_geometry_swipeTo p c (Fin i) imm1) as Hg1.
  destruct (correctPosition_finite p c a Ha Hmeas) as (a0 & Ha0).
  destruct (measured_bound p c Hmeas) as (mc & Hmc0 & Hmc).
  pose proof (same_geometry_correctPosition p c) as Hg0.
  assert (Hflat : loop p = false -> 0 <= a0).
  { intros Hl.
    destruct (correctPosition_flat_nonneg p c a mc Hl Hn1 Ha (Hmc Hl) Hmc0)
      as (a0' & Ha0' & H0).
    rewrite Ha0 in Ha0'. now injection Ha0' as ->. }
  set (n := panels c) in *.
  set (t := Z.rem i n) in *.
  assert (Ht : - n < t < n).
  { subst t.
    pose proof (Z.rem_bound_pos (Z.abs i) n ltac:(lia) ltac:(lia)) as Hpos.
    pose proof (Z.rem_abs i n ltac:(lia)) as Habs.
    rewrite (Z.abs_eq n) in Habs by lia. lia. }
  assert (Htarget : forall c', panels c' = n ->
            swipeTo_target p c' (Fin i) = Fin t).
  { intros c' Hc'. rewrite swipeTo_target_rem by (rewrite Hc'; assumption).
    now rewrite Hc'. }
  destruct (resolve_twice_rem (loop p) n mc a0 t Ht Hmc0 Hrem Hflat)
    as (HA1 & Htw).
  set (A1 := resolve (loop p) n mc a0 (t - a0)) in *.
  assert (H1 : active (state (swipeTo p (Fin i) imm1 c)) = Fin A1).
  { destruct (swipeTo_big p c (Fin i) imm1 Hn1) as (-> & _).
    rewrite Htarget by apply Hg0. rewrite Ha0. simpl sub.
    rewrite (getTargetActive_resolve p _ a0 _ mc Ha0).
    - destruct Hg0 as (-> & _). reflexivity.
    - intros Hl. rewrite (same_geometry_maxCount p c _ Hg0). now apply Hmc. }
  set (c1 := swipeTo p (Fin i) imm1 c) in *.
  assert (Hp1 : panels c1 = n) by apply Hg1.
  assert (Hcp : correctPosition p c1 = set_swiping c1 true).
  { apply (correctPosition_in_range p c1 A1 H1). now rewrite Hp1. }
  destruct (swipeTo_big p c1 (Fin i) imm2) as (Hact & Hemit);
    [now rewrite Hp1 |].
  rewrite Hcp in Hact, Hemit.
  rewrite (Htarget (set_swiping c1 true) Hp1) in Hact, Hemit.
  change (active (state (set_swiping c1 true)))
    with (active (state c1)) in Hact, Hemit.
  rewrite H1 in Hact, Hemit. simpl sub in Hact, Hemit.
  rewrite (getTargetActive_resolve p (set_swiping c1 true) A1 _ mc H1)
    in Hact, Hemit.
  2, 3: intros Hl; change (maxCount p (set_swiping c1 true))
                     with (maxCount p c1);
        rewrite (same_geometry_maxCount p c c1 Hg1); now apply Hmc.
  change (panels (set_swiping c1 true)) with (panels c1) in Hact, Hemit.
  rewrite Hp1 in Hact, Hemit.
  change (t + - A1) with (t - A1) in Hact, Hemit.
  rewrite Htw in Hact, Hemit.
  split; [now rewrite H1 |].
  apply Hemit. rewrite sne_Fin, Z.eqb_refl. reflexivity.
Qed.

(** In loop mode [correctPosition] leaves an index in [-1 .. count],
    wherever it started. *)
Lemma correctPosition_loop_range p c a :
  loop p = true -> 1 < panels c -> active (state c) = Fin a ->
  exists a0,
    active (state (correctPosition p c)) = Fin a0 /\ -1 <= a0 <= panels c.
Proof.
  intros Hl Hn Ha. rewrite (correctPosition_active p c a Hl Hn Ha).
  eexists; split; [reflexivity |].
  destruct (Z.leb_spec a (-1)); [lia |].
  destruct (Z.leb_spec (panels c) a); lia.
Qed.

(** In loop mode [swipeTo(count)] arrives at index 0 when the corrected
    index [a0] is 0 and at [count] otherwise. *)
Lemma swipeTo_count_arrival p c a imm :
  loop p = true -> 1 < panels c -> active (state c) = Fin a ->
  exists a0,
    active (state (correctPosition p c)) = Fin a0 /\
    (0 <= a < panels c -> a0 = a) /\ (a = panels c -> a0 = 0) /\
    getTargetActive p (correctPosition p c)
      (sub (swipeTo_target p (correctPosition p c) (Fin (panels c)))
           (active (state (correctPosition p c)))) =
      Fin (if a0 =? 0 then 0 else panels c) /\
    active (state (swipeTo p (Fin (panels c)) imm c)) =
      Fin (if a0 =? 0 then 0 else panels c).
Proof.
  intros Hl Hn Ha.
  pose proof (correctPosition_active p c a Hl Hn Ha) as Ha0.
  set (a0 := if a <=? -1 then Z.min (Z.max (a + panels c) (-1)) (panels c)
             else if panels c <=? a
                  then Z.min (Z.max (a - panels c) (-1)) (panels c)
                  else a) in Ha0.
  assert (Hr0 : -1 <= a0 <= panels c /\
                (0 <= a < panels c -> a0 = a) /\ (a = panels c -> a0 = 0)).
  { subst a0. destruct (Z.leb_spec a (-1)); [lia |].
    destruct (Z.leb_spec (panels c) a); lia. }
  pose proof (panels_correctPosition p c) as Hp0.
  destruct (swipeTo_big p c (Fin (panels c)) imm Hn) as (Hact & _).
  rewrite Hact. clear Hact.
  exists a0. split; [exact Ha0 |]. split; [apply Hr0 |]. split; [apply Hr0 |].
  assert (HT : getTargetActive p (correctPosition p c)
                 (sub (swipeTo_target p (correctPosition p c)
                         (Fin (panels c)))
                      (active (state (correctPosition p c)))) =
               Fin (if a0 =? 0 then 0 else panels c)).
  { unfold swipeTo_target. rewrite Hl, Ha0.
    change (count (correctPosition p c))
      with (Fin (panels (correctPosition p c))).
    rewrite Hp0, !seq_Fin, Z.eqb_refl. simpl andb. cbv iota.
    destruct (Z.eqb_spec a0 0) as [E | E]; simpl sub;
      rewrite (getTargetActive_resolve p _ a0 _ 0 Ha0)
        by (intros Hf; congruence);
      unfold resolve; rewrite ?Hl, ?Hp0.
    - rewrite E. reflexivity.
    - destruct (Z.eqb_spec (panels c + - a0) 0); f_equal; lia. }
  split; exact HT.
Qed.

(** A second [swipeTo(count)] in loop mode: nothing is emitted and the
    active index ends at 0, the panel the indicator already showed. *)
Lemma swipeTo_twice_count p c a imm1 imm2 :
  loop p = true -> 1 < panels c -> active (state c) = Fin a ->
  emitted (swipeTo p (Fin (panels c)) imm2
             (swipeTo p (Fin (panels c)) imm1 c)) =
    emitted (swipeTo p (Fin (panels c)) imm1 c) /\
  activeIndicator (swipeTo p (Fin (panels c)) imm2
                     (swipeTo p (Fin (panels c)) imm1 c)) =
    activeIndicator (swipeTo p (Fin (panels c)) imm1 c) /\
  active (state (swipeTo p (Fin (panels c)) imm2
                   (swipeTo p (Fin (panels c)) imm1 c))) = Fin 0.
Proof.
  intros Hl Hn Ha.
  destruct (swipeTo_count_arrival p c a imm1 Hl Hn Ha)
    as (a0 & _ & _ & _ & _ & H1).
  pose proof (same_geometry_swipeTo p c (Fin (panels c)) imm1) as (Hp1 & _).
  set (c1 := swipeTo p (Fin (panels c)) imm1 c) in *.
  set (A1 := if a0 =? 0 then 0 else panels c) in *.
  assert (Hcase : A1 = 0 \/ A1 = panels c)
    by (subst A1; destruct (a0 =? 0); [now left | now right]).
  assert (Hn1 : 1 < panels c1) by (rewrite Hp1; exact Hn).
  rewrite <- Hp1.
  destruct (swipeTo_count_arrival p c1 A1 imm2 Hl Hn1 H1)
    as (a1 & Ha1 & Hin & Hend & HT & Hact).
  assert (Hz : a1 = 0).
  { destruct Hcase as [E | E];
      [transitivity A1; [apply Hin; lia | exact E] | apply Hend; lia]. }
  subst a1. simpl in HT, Hact.
  destruct (swipeTo_big p c1 (Fin (panels c1)) imm2 Hn1) as (_ & Hemit).
  pose proof (same_geometry_swipeTo p c1 (Fin (panels c1)) imm2)
    as (Hp2 & _).
  split; [| split; [| exact Hact]].
  - apply Hemit. rewrite HT, Ha1. reflexivity.
  - rewrite (activeIndicator_Fin _ 0) by (rewrite ?Hp2; (assumption || lia)).
    rewrite (activeIndicator_Fin c1 A1) by (assumption || lia).
    rewrite Hp2. f_equal. rewrite Z.mod_0_l by lia.
    destruct Hcase as [-> | ->];
      [rewrite Z.mod_0_l by lia | rewrite Hp1, Z_mod_same_full];
      reflexivity.
Qed.

(** In loop mode [swipeTo(i)] with a negative [i] that is not a multiple
    of [count] arrives at the slot -1, from every index. *)
Lemma swipeTo_negative_arrival p c a i imm :
  loop p = true -> 1 < panels c -> active (state c) = Fin a ->
  i < 0 -> Z.rem i (panels c) <> 0 ->
  exists a0,
    active (state (correctPosition p c)) = Fin a0 /\
    (a = -1 -> a0 = panels c - 1) /\
    getTargetActive p (correctPosition p c)
      (sub (swipeTo_target p (correctPosition p c) (Fin i))
           (active (state (correctPosition p c)))) = Fin (-1) /\
    active (state (swipeTo p (Fin i) imm c)) = Fin (-1).
Proof.
  intros Hl Hn Ha Hi Hrem.
  pose proof (correctPosition_active p c a Hl Hn Ha) as Ha0.
  set (a0 := if a <=? -1 then Z.min (Z.max (a + panels c) (-1)) (panels c)
             else if panels c <=? a
                  then Z.min (Z.max (a - panels c) (-1)) (panels c)
                  else a) in Ha0.
  assert (Hr0 : -1 <= a0 <= panels c /\ (a = -1 -> a0 = panels c - 1)).
  { subst a0. destruct (Z.leb_spec a (-1)); [lia |].
    destruct (Z.leb_spec (panels c) a); lia. }
  pose proof (panels_correctPosition p c) as Hp0.
  pose proof (Z.rem_bound_pos_neg i (panels c) ltac:(lia) ltac:(lia)) as Hb.
  destruct (swipeTo_big p c (Fin i) imm Hn) as (Hact & _).
  rewrite Hact. clear Hact.
  exists a0. split; [exact Ha0 |]. split; [apply Hr0 |].
  assert (HT : getTargetActive p (correctPosition p c)
                 (sub (swipeTo_target p (correctPosition p c) (Fin i))
                      (active (state (correctPosition p c)))) = Fin (-1)).
  { rewrite swipeTo_target_rem by (rewrite Hp0; (assumption || lia)).
    rewrite Hp0, Ha0. simpl sub.
    rewrite (getTargetActive_resolve p _ a0 _ 0 Ha0)
      by (intros Hf; congruence).
    unfold resolve. rewrite Hl, Hp0.
    destruct (Z.eqb_spec (Z.rem i (panels c) + - a0) 0); f_equal; lia. }
  split; exact HT.
Qed.

(** A second [swipeTo(i)] in loop mode with such an index finds the slot
    -1, which [correctPosition] replaces by [count - 1], and goes back to
    -1: the active index is the one the first call left, and one more
    ['change'] is emitted, carrying [count - 1]. *)
Lemma swipeTo_twice_negative p c a i imm1 imm2 :
  loop p = true -> 1 < panels c -> active (state c) = Fin a ->
  i < 0 -> Z.rem i (panels c) <> 0 ->
  active (state (swipeTo p (Fin i) imm2 (swipeTo p (Fin i) imm1 c))) =
    active (state (swipeTo p (Fin i) imm1 c)) /\
  emitted (swipeTo p (Fin i) imm2 (swipeTo p (Fin i) imm1 c)) =
    emitted (swipeTo p (Fin i) imm1 c) ++ [Fin (panels c - 1)].
Proof.
  intros Hl Hn Ha Hi Hrem.
  destruct (swipeTo_negative_arrival p c a i imm1 Hl Hn Ha Hi Hrem)
    as (a0 & _ & _ & _ & H1).
  pose proof (same_geometry_swipeTo p c (Fin i) imm1) as (Hp1 & _).
  set (c1 := swipeTo p (Fin i) imm1 c) in *.
  assert (Hn1 : 1 < panels c1) by (rewrite Hp1; exact Hn).
  assert (Hrem1 : Z.rem i (panels c1) <> 0) by (rewrite Hp1; exact Hrem).
  destruct (swipeTo_negative_arrival p c1 (-1) i imm2 Hl Hn1 H1 Hi Hrem1)
    as (a1 & Ha1 & Hlast & HT & Hact).
  specialize (Hlast eq_refl).
  pose proof (same_geometry_swipeTo p c1 (Fin i) imm2) as (Hp2 & _).
  split; [now rewrite Hact, H1 |].
  rewrite swipeTo_emitted by exact Hn1.
  rewrite HT, Ha1, sne_Fin.
  destruct (Z.eqb_spec (-1) a1) as [E | _]; [lia |]. simpl negb. cbv iota.
  f_equal. f_equal.
  rewrite (activeIndicator_Fin _ (-1)) by (rewrite ?Hp2; (assumption || lia)).
  rewrite Hp2, Hp1. f_equal. symmetry.
  apply (Z.mod_unique (-1) (panels c) (-1)); lia.
Qed.

(** C8, as the code has it.  On integer values: a move emits one
    ['change'] exactly when [emitChange] is set and the active index it
    stores differs from the one it found, and the payload is the new
    active index reduced modulo [count] into [0 .. count - 1]; a live drag
    ([onTouchMove]) and a move of pace 0 emit nothing.  Two [swipeTo]
    calls in a row with the same index [i] leave after the second call the
    active index of the first and emit nothing more: for every integer [i]
    outside loop mode and with at most one panel, and in loop mode for
    every [i] other than [count] that is not negative or is a multiple of
    [count].  In loop mode with more than one panel a second
    [swipeTo(count)] emits nothing either and leaves [activeIndicator] as
    it was, and the active index ends at 0; and a second [swipeTo(i)] with
    a negative [i] that is not a multiple of [count] leaves the active
    index of the first and emits one more ['change'], carrying
    [count - 1]. *)
Theorem C8_change_notification (p : Props) (c : Component) (a : Z) :
  active (state c) = Fin a -> measured p c ->
  (forall pace off e,
     (e = true /\
      active (state (move p c pace off e)) <> active (state c) ->
      emitted (move p c pace off e) =
        emitted c ++ [activeIndicator (move p c pace off e)] /\
      exists a',
        active (state (move p c pace off e)) = Fin a' /\
        activeIndicator (move p c pace off e) = Fin (a' mod panels c) /\
        0 <= a' mod panels c < panels c) /\
     (~ (e = true /\
         active (state (move p c pace off e)) <> active (state c)) ->
      emitted (move p c pace off e) = emitted c)) /\
  (forall reading, emitted (onTouchMove p reading c) = emitted c) /\
  (forall off e, emitted (move p c (Fin 0) off e) = emitted c) /\
  (forall i imm1 imm2,
     panels c <= 1 \/ loop p = false \/
     ((0 <= i \/ Z.rem i (panels c) = 0) /\ i <> panels c) ->
     active (state (swipeTo p (Fin i) imm2 (swipeTo p (Fin i) imm1 c))) =
       active (state (swipeTo p (Fin i) imm1 c)) /\
     emitted (swipeTo p (Fin i) imm2 (swipeTo p (Fin i) imm1 c)) =
       emitted (swipeTo p (Fin i) imm1 c)) /\
  (forall imm1 imm2,
     loop p = true -> 1 < panels c ->
     emitted (swipeTo p (Fin (panels c)) imm2
                (swipeTo p (Fin (panels c)) imm1 c)) =
       emitted (swipeTo p (Fin (panels c)) imm1 c) /\
     activeIndicator (swipeTo p (Fin (panels c)) imm2
                        (swipeTo p (Fin (panels c)) imm1 c)) =
       activeIndicator (swipeTo p (Fin (panels c)) imm1 c) /\
     active (state (swipeTo p (Fin (panels c)) imm2
                      (swipeTo p (Fin (panels c)) imm1 c))) = Fin 0) /\
  (forall i imm1 imm2,
     loop p = true -> 1 < panels c -> i < 0 -> Z.rem i (panels c) <> 0 ->
     active (state (swipeTo p (Fin i) imm2 (swipeTo p (Fin i) imm1 c))) =
       active (state (swipeTo p (Fin i) imm1 c)) /\
     emitted (swipeTo p (Fin i) imm2 (swipeTo p (Fin i) imm1 c)) =
       emitted (swipeTo p (Fin i) imm1 c) ++ [Fin (panels c - 1)]).
Proof.
  intros Ha Hmeas. split; [| split; [| split; [| split; [| split]]]].
  - intros pace off e.
    destruct (Z_le_gt_dec (panels c) 1) as [Hn | Hn].
    { rewrite (move_few p c pace off e Hn). split; [| reflexivity].
      intros (_ & H). now contradiction H. }
    assert (Hn1 : 1 < panels c) by lia.
    rewrite emitted_move, (active_move p c pace off e Hn1).
    destruct (Z.ltb_spec 1 (panels c)); [| lia]. simpl andb.
    destruct (getTargetActive_finite p c a pace Ha Hmeas) as (t & Ht & Hlo).
    rewrite Ha. split.
    + intros (-> & Hne). simpl andb.
      assert (Hs : sne (getTargetActive p c pace) (Fin a) = true)
        by now apply sne_Fin_r.
      rewrite Hs. split; [reflexivity |].
      exists t. split; [exact Ht |].
      assert (Hta : t <> a) by (intros ->; now apply Hne).
      rewrite <- (panels_move p c pace off true).
      split.
      * apply activeIndicator_Fin.
        -- now rewrite panels_move.
        -- now rewrite active_move.
        -- rewrite panels_move. lia.
      * apply Z.mod_pos_bound. rewrite panels_move. lia.
    + intros Hno.
      destruct e; [| reflexivity]. simpl andb.
      destruct (sne (getTargetActive p c pace) (Fin a)) eqn:Hs;
        [| reflexivity].
      exfalso. apply Hno. split; [reflexivity |]. now apply sne_Fin_r.
  - intros reading. unfold onTouchMove.
    destruct (touchable p && swiping (state c)); [| reflexivity].
    destruct (isCorrectDirection p (set_touch c reading)); [| reflexivity].
    rewrite emitted_move. now rewrite andb_false_r.
  - intros off e. rewrite emitted_move, getTargetActive_zero, Ha.
    now rewrite sne_Fin, Z.eqb_refl, !andb_false_r.
  - intros i imm1 imm2 Hcond.
    destruct (Z_le_gt_dec (panels c) 1) as [Hn | Hn].
    { pose proof (same_geometry_swipeTo p c (Fin i) imm1) as (Hp & _).
      apply swipeTo_few. now rewrite Hp. }
    destruct Hcond as [Hfew | [Hl | (Hi & Hne)]]; [lia | |].
    + assert (Hsp : ~ (loop p = true /\ i = panels c))
        by (intros (Ht & _); congruence).
      assert (Hrem : loop p = true -> 0 <= Z.rem i (panels c))
        by (intros Ht; congruence).
      apply (swipeTo_twice_rem p c a i imm1 imm2 Ha Hmeas ltac:(lia) Hsp Hrem).
    + assert (Hsp : ~ (loop p = true /\ i = panels c))
        by (intros (_ & H); contradiction).
      assert (Hrem : loop p = true -> 0 <= Z.rem i (panels c)).
      { intros _. destruct Hi as [Hi | ->]; [| lia].
        apply Z.rem_nonneg; lia. }
      apply (swipeTo_twice_rem p c a i imm1 imm2 Ha Hmeas ltac:(lia) Hsp Hrem).
  - intros imm1 imm2 Hl Hn. now apply (swipeTo_twice_count p c a).
  - intros i imm1 imm2 Hl Hn Hi Hrem.
    now apply (swipeTo_twice_negative p c a).
Qed.

Lemma C8_change_notification_witness :
  let p := props_with true None in
  let q := props_with false None in
  let once := swipeTo p (Fin 2) false loop3 in
  let once_flat := swipeTo q (Fin (-1)) false (next q flat3) in
  let once_count := swipeTo p (Fin (panels (mounted p 100 3 1))) false
                      (mounted p 100 3 1) in
  emitted (next p loop3) = [Fin 1] /\
  emitted (swipeTo p (Fin 2) false once) = emitted once /\
  emitted once = [Fin 2] /\
  emitted (swipeTo q (Fin (-1)) false once_flat) = emitted once_flat /\
  emitted once_flat = [Fin 1; Fin 0] /\
  emitted (swipeTo p (Fin (panels (mounted p 100 3 1))) false once_count) =
    emitted once_count /\
  emitted (swipeTo p (Fin (-1)) false (swipeTo p (Fin (-1)) false loop3)) =
    emitted (swipeTo p (Fin (-1)) false loop3) ++ [Fin (panels loop3 - 1)].
Proof.
  intros p q once once_flat once_count.
  destruct (C8_change_notification p loop3 0 eq_refl (or_introl eq_refl))
    as (_ & _ & _ & Htwice & _ & Hneg).
  destruct (C8_change_notification q (next q flat3) 1 eq_refl)
    as (_ & _ & _ & Hflat & _).
  { right. exists 100. split; [reflexivity | lia]. }
  destruct (C8_change_notification p (mounted p 100 3 1) 1 eq_refl
              (or_introl eq_refl)) as (_ & _ & _ & _ & Hcount & _).
  split; [reflexivity |].
  split; [apply (Htwice 2 false false); right; right;
          split; [left; lia | vm_compute; discriminate] |].
  split; [reflexivity |].
  split; [apply (Hflat (-1) false false); right; left; reflexivity |].
  split; [reflexivity |].
  split; [apply (Hcount false false); reflexivity |].
  apply (Hneg (-1) false false);
    [reflexivity | reflexivity | lia | vm_compute; discriminate].
Defined.

(** C8 fails as stated on its round trip.  In loop mode on three panels
    a second [swipeTo(-1)] emits a second ['change'], and a second
    [swipeTo(3)] started from index 1 moves the active index from 3
    to 0. *)
Lemma C8_counterexample :
  let p := props_with true None in
  let once := swipeTo p (Fin (-1)) false loop3 in
  let twice := swipeTo p (Fin (-1)) false once in
  let once' := swipeTo p (Fin 3) false (mounted p 100 3 1) in
  let twice' := swipeTo p (Fin 3) false once' in
  emitted once = [Fin 2] /\
  emitted twice = [Fin 2; Fin 2] /\
  emitted twice <> emitted once /\
  active (state once') = Fin 3 /\
  active (state twice') = Fin 0 /\
  active (state twice') <> active (state once').
Proof.
  repeat split; vm_compute; discriminate.
Qed.

Lemma C6_loop_edge_panels_witness :
  let p := props_with true None in
  let c' := move p loop3_end (Fin 1) (Fin 0) true in
  offset (state c') = Fin (-300) /\
  children c' !! 0%nat = Some (Fin 300) /\
  children c' !! 2%nat = Some (Fin 0).
Proof.
  destruct (C6_loop_edge_panels (props_with true None) loop3_end
              (Fin 1) (Fin 0) true eq_refl eq_refl) as (H0 & Hlast & _).
  split; [reflexivity |].
  split; [exact (H0 eq_refl) | exact (Hlast eq_refl)].
Defined.

Lemma C9_correctPosition_loop_witness :
  let p := props_with true None in
  swiping (state (correctPosition p loop3_before)) = true /\
  activeIndicator (correctPosition p loop3_before) =
    activeIndicator loop3_before /\
  active (state (correctPosition p loop3_before)) = Fin 2.
Proof.
  destruct (C9_correctPosition_loop (props_with true None) loop3_before (-1)
              eq_refl eq_refl eq_refl) as (Hsw & Hind & a' & Ha' & _ & Hlo & _).
  { vm_compute. split; discriminate. }
  split; [exact Hsw |]. split; [exact Hind |].
  rewrite Ha'. f_equal. apply Hlo. lia.
Defined.

Lemma C10_initialize_clamps_above_witness :
  let p := props_with true None in
  let r := {| rect_width := 100; rect_height := 50 |} in
  active (state (initialize p (Some r) (fresh 3) (Fin (-2)))) = Fin (-2) /\
  active (state (initialize p (Some r) (fresh 3) (Fin 7))) = Fin 2.
Proof.
  split.
  - destruct (C10_initialize_clamps_above (props_with true None)
                {| rect_width := 100; rect_height := 50 |} (fresh 3)
                (Fin (-2))) as (H & _).
    destruct (H ltac:(reflexivity)) as (_ & Hq).
    destruct (Hq (-2) eq_refl) as (_ & Hneg). apply Hneg. lia.
  - destruct (C10_initialize_clamps_above (props_with true None)
                {| rect_width := 100; rect_height := 50 |} (fresh 3)
                (Fin 7)) as (H & _).
    destruct (H ltac:(reflexivity)) as (_ & Hq).
    exact (proj1 (Hq 7 eq_refl)).
Defined.

(** ** The scenarios of the specification *)

(** Scenario A: five 300-pixel panels without loop; [next()] from index 0
    gives index 1, offset -300 and one ['change'] with payload 1. *)
Example scenario_A :
  let p := props_with false None in
  let c := next p (mounted p 300 5 0) in
  active (state c) = Fin 1 /\ offset (state c) = Fin (-300) /\
  emitted c = [Fin 1].
Proof. repeat split. Qed.

(** Scenario B: three 100-pixel panels in loop mode; a drag of -80
    pixels released after 100 ms commits with pace 1. *)
Example scenario_B :
  let p := props_with true None in
  let c := onTouchEnd p 100 dragged3 in
  active (state c) = Fin 1 /\ emitted c = [Fin 1] /\
  swiping (state c) = false.
Proof. repeat split. Qed.

(** Scenario C: four panels in loop mode; [swipeTo(4)] at index 0 targets
    index 0 and emits nothing. *)
Example scenario_C :
  let p := props_with true None in
  let c := swipeTo p (Fin 4) false (mounted p 100 4 0) in
  active (state c) = Fin 0 /\ emitted c = [].
Proof. repeat split. Qed.

(** Scenario D: three panels without loop; [maxCount] is 2 and four
    [next()] calls stop at index 2. *)
Example scenario_D :
  let p := props_with false None in
  maxCount p flat3 = Fin 2 /\
  active (state (next p (next p (next p (next p flat3))))) = Fin 2.
Proof. repeat split. Qed.

(** ** Invariants over sequences of events *)

Lemma emitted_autoplay p c : emitted (autoplay p c) = emitted c.
Proof. unfold autoplay. now destruct (_ && _). Qed.

Lemma panels_autoplay p c : panels (autoplay p c) = panels c.
Proof. unfold panels. now rewrite children_autoplay. Qed.

Lemma panels_initialize p root c requested :
  panels (initialize p root c requested) = panels c.
Proof.
  destruct root as [r |]; [| reflexivity].
  unfold initialize. rewrite panels_autoplay. unfold panels. simpl.
  now rewrite length_map.
Qed.

Lemma emitted_initialize p root c requested :
  emitted (initialize p root c requested) = emitted c.
Proof.
  destruct root as [r |]; [| reflexivity].
  unfold initialize. now rewrite emitted_autoplay.
Qed.

(** The payload of a ['change'] is a panel index as soon as the new
    active index is not below [- count]. *)
Lemma activeIndicator_panel_index c t :
  1 < panels c -> active (state c) = Fin t -> - panels c <= t ->
  panel_index (panels c) (activeIndicator c).
Proof.
  intros Hn Ht Hlo. exists (t mod panels c). split.
  - now apply activeIndicator_Fin.
  - apply Z.mod_pos_bound. lia.
Qed.

(** What a move emits is a panel index whenever its target is an
    integer of at least -1. *)
Lemma emitted_move_panel_index p c pace off e t :
  getTargetActive p c pace = Fin t -> -1 <= t ->
  Forall (panel_index (panels c)) (emitted c) ->
  Forall (panel_index (panels c)) (emitted (move p c pace off e)).
Proof.
  intros Ht Hlo Hem. rewrite emitted_move.
  destruct (Z.ltb_spec 1 (panels c)) as [Hn | Hn]; [| exact Hem].
  simpl andb.
  destruct (e && sne (getTargetActive p c pace) (active (state c)));
    [| exact Hem].
  apply Forall_app. split; [exact Hem |].
  constructor; [| constructor].
  rewrite <- (panels_move p c pace off e).
  apply (activeIndicator_panel_index _ t).
  - now rewrite panels_move.
  - now rewrite active_move.
  - rewrite panels_move. lia.
Qed.

(** In loop mode the target of a move stays in [-1 .. count], for every
    pace, infinite or NaN included. *)
Lemma getTargetActive_loop_range p c a pace :
  loop p = true -> active (state c) = Fin a -> -1 <= a <= panels c ->
  exists t, getTargetActive p c pace = Fin t /\ -1 <= t <= panels c.
Proof.
  intros Hl Ha Hr. unfold getTargetActive. rewrite Ha, Hl.
  destruct (truthy pace) eqn:Htr; [| now exists a].
  change (count c) with (Fin (panels c)).
  destruct pace as [q | | |]; simpl in Htr; try discriminate; simpl add.
  - rewrite range_Fin. eexists; split; [reflexivity | lia].
  - exists (panels c). split; [reflexivity | lia].
  - unfold range. change (JS.max NInf (Fin (-1))) with (Fin (-1)).
    rewrite min_Fin. eexists; split; [reflexivity | lia].
Qed.

Lemma loop_inv_ext c c' :
  active (state c') = active (state c) -> panels c' = panels c ->
  emitted c' = emitted c -> loop_inv c -> loop_inv c'.
Proof.
  intros Ha Hn He ((a & Hact & Hr) & Hem). split.
  - exists a. rewrite Ha, Hn. now split.
  - now rewrite He, Hn.
Qed.

Lemma move_loop_inv p c pace off e :
  loop p = true -> loop_inv c -> loop_inv (move p c pace off e).
Proof.
  intros Hl ((a & Ha & Hr) & Hem).
  destruct (Z_le_gt_dec (panels c) 1) as [Hn | Hn].
  { rewrite move_few by assumption. split; [now exists a | assumption]. }
  destruct (getTargetActive_loop_range p c a pace Hl Ha Hr) as (t & Ht & Htr).
  split.
  - exists t. rewrite active_move by lia. rewrite panels_move. now split.
  - rewrite panels_move.
    apply (emitted_move_panel_index p c pace off e t Ht); [lia | exact Hem].
Qed.

Lemma correctPosition_loop_inv p c :
  loop p = true -> loop_inv c -> loop_inv (correctPosition p c).
Proof.
  intros Hl H.
  assert (H1 : loop_inv (set_swiping c true))
    by (apply (loop_inv_ext c); [reflexivity.. | exact H]).
  unfold correctPosition.
  destruct (leb _ _); [| destruct (geb _ _)];
    try apply move_loop_inv; assumption.
Qed.

Lemma perform_loop_inv p c i :
  loop p = true -> loop_inv c -> loop_inv (perform p c i).
Proof.
  intros Hl H. destruct i as [| pace e]; [exact H |].
  now apply move_loop_inv.
Qed.

Lemma autoplay_loop_inv p c : loop_inv c -> loop_inv (autoplay p c).
Proof.
  apply loop_inv_ext;
    [now rewrite state_autoplay | apply panels_autoplay
    | apply emitted_autoplay].
Qed.

Lemma initialize_loop_inv p root c q :
  0 < panels c -> -1 <= q -> loop_inv c ->
  loop_inv (initialize p root c (Fin q)).
Proof.
  intros Hn Hq H. destruct root as [r |]; [| exact H].
  destruct H as (_ & Hem). split.
  - rewrite initialize_active, panels_initialize.
    change (count c) with (Fin (panels c)). rewrite truthy_Fin.
    destruct (Z.eqb_spec (panels c) 0); [lia |]. simpl.
    rewrite min_Fin. eexists; split; [reflexivity | lia].
  - now rewrite panels_initialize, emitted_initialize.
Qed.

Lemma handle_loop_inv p c e :
  loop p = true -> 0 < panels c -> initial_index_ok e ->
  loop_inv c -> loop_inv (handle p c e).
Proof.
  intros Hl Hn Hok H.
  destruct e as [root requested | root | now | reading | now | | | |
                 index immediate | immediate | | | visible]; simpl.
  - destruct root as [r |]; [| exact H].
    destruct requested as [q | | |]; try contradiction.
    now apply initialize_loop_inv.
  - unfold resize. destruct H as ((a & Ha & Hr) & Hem). rewrite Ha.
    apply initialize_loop_inv; [assumption | lia |].
    split; [now exists a | assumption].
  - unfold onTouchStart. destruct (negb (touchable p)); [exact H |].
    apply correctPosition_loop_inv; [assumption |].
    apply (loop_inv_ext c); [reflexivity.. | exact H].
  - unfold onTouchMove.
    destruct (touchable p && swiping (state c)); [| exact H].
    destruct (isCorrectDirection p (set_touch c reading)).
    + apply move_loop_inv; [assumption |].
      apply (loop_inv_ext c); [reflexivity.. | exact H].
    + apply (loop_inv_ext c); [reflexivity.. | exact H].
  - unfold onTouchEnd.
    destruct (negb (touchable p) || negb (swiping (state c))); [exact H |].
    apply autoplay_loop_inv.
    apply (loop_inv_ext (perform p c (onTouchEnd_issue p now c)));
      [reflexivity.. |].
    now apply perform_loop_inv.
  - unfold nav_sync.
    apply (loop_inv_ext (correctPosition p c)); [reflexivity.. |].
    now apply correctPosition_loop_inv.
  - unfold prev_frame. apply move_loop_inv; [assumption |].
    apply (loop_inv_ext c); [reflexivity.. | exact H].
  - unfold next_frame. apply move_loop_inv; [assumption |].
    apply (loop_inv_ext c); [reflexivity.. | exact H].
  - unfold swipeTo_frame. apply move_loop_inv; [assumption |].
    destruct immediate; [exact H |].
    apply (loop_inv_ext c); [reflexivity.. | exact H].
  - unfold swipeTo_settle. destruct immediate; [| exact H].
    apply (loop_inv_ext c); [reflexivity.. | exact H].
  - unfold timer_callback, nav_sync. apply autoplay_loop_inv.
    apply (loop_inv_ext (correctPosition p (set_autoplayTimer c false)));
      [reflexivity.. |].
    apply correctPosition_loop_inv; [assumption |].
    apply (loop_inv_ext c); [reflexivity.. | exact H].
  - unfold watch_autoplay. destruct (gtb _ _).
    + now apply autoplay_loop_inv.
    + apply (loop_inv_ext c); [reflexivity.. | exact H].
  - unfold watch_visibility. destruct visible.
    + now apply autoplay_loop_inv.
    + apply (loop_inv_ext c); [reflexivity.. | exact H].
Qed.

Lemma panels_handle p c e : panels (handle p c e) = panels c.
Proof.
  destruct e as [root requested | root | now | reading | now | | | |
                 index immediate | immediate | | | visible]; simpl.
  - apply panels_initialize.
  - apply panels_initialize.
  - unfold onTouchStart. destruct (negb (touchable p)); [reflexivity |].
    now rewrite panels_correctPosition.
  - unfold onTouchMove.
    destruct (touchable p && swiping (state c)); [| reflexivity].
    destruct (isCorrectDirection p (set_touch c reading)); [| reflexivity].
    now rewrite panels_move.
  - unfold onTouchEnd.
    destruct (negb (touchable p) || negb (swiping (state c)));
      [reflexivity |].
    rewrite panels_autoplay.
    change (panels (perform p c (onTouchEnd_issue p now c)) = panels c).
    destruct (onTouchEnd_issue p now c); simpl; [reflexivity |].
    apply panels_move.
  - unfold nav_sync.
    change (panels (correctPosition p c) = panels c).
    apply panels_correctPosition.
  - unfold prev_frame. now rewrite panels_move.
  - unfold next_frame. now rewrite panels_move.
  - unfold swipeTo_frame. rewrite panels_move. now destruct immediate.
  - unfold swipeTo_settle. now destruct immediate.
  - unfold timer_callback, nav_sync. rewrite panels_autoplay.
    change (panels (correctPosition p (set_autoplayTimer c false)) = panels c).
    now rewrite panels_correctPosition.
  - unfold watch_autoplay. destruct (gtb _ _);
      [apply panels_autoplay | reflexivity].
  - unfold watch_visibility. destruct visible;
      [apply panels_autoplay | reflexivity].
Qed.

Lemma panels_run p es : forall c, panels (run p c es) = panels c.
Proof.
  induction es as [| e es IH]; intros c; [reflexivity |].
  unfold run in *. simpl. now rewrite IH, panels_handle.
Qed.

Lemma run_loop_inv p es :
  loop p = true -> Forall initial_index_ok es ->
  forall c, 0 < panels c -> loop_inv c -> loop_inv (run p c es).
Proof.
  intros Hl Hes. induction Hes as [| e es He Hes IH]; intros c Hn H;
    [exact H |].
  unfold run in *. simpl. apply IH.
  - now rewrite panels_handle.
  - now apply handle_loop_inv.
Qed.

(** X1.  In loop mode with at least one panel, if the active index is an
    integer in [-1 .. count] and the payloads emitted so far are panel
    indices, then after every sequence of events (touch handlers,
    navigation calls and their frame callbacks in any interleaving, timer,
    watchers, initializations asking for an index of at least -1) the
    number of panels is the same, the active index is again an integer in
    [-1 .. count], every ['change'] emitted carries an index in
    [0 .. count - 1], and with more than one panel so does
    [activeIndicator]. *)
Theorem X1_loop_reachable_indices (p : Props) (c : Component)
    (es : list Event) :
  loop p = true -> 0 < panels c -> loop_inv c ->
  Forall initial_index_ok es ->
  panels (run p c es) = panels c /\
  (exists a, active (state (run p c es)) = Fin a /\ -1 <= a <= panels c) /\
  Forall (panel_index (panels c)) (emitted (run p c es)) /\
  (1 < panels c -> panel_index (panels c) (activeIndicator (run p c es))).
Proof.
  intros Hl Hn H Hes.
  pose proof (panels_run p es c) as Hp.
  destruct (run_loop_inv p es Hl Hes c Hn H) as ((a & Ha & Hr) & Hem).
  rewrite Hp in Hr, Hem.
  split; [exact Hp |]. split; [now exists a |]. split; [exact Hem |].
  intros Hn1. rewrite <- Hp.
  apply (activeIndicator_panel_index _ a); rewrite ?Hp; (assumption || lia).
Qed.

Lemma X1_loop_reachable_indices_witness :
  let p := props_with true None in
  let es := [EInitialize (Some {| rect_width := 100; rect_height := 50 |})
               (Fin (-1));
             ETouchStart 0; ENavSync; ETouchMove (horizontal_drag (-80));
             ENextFrame; ETouchEnd 100; ENavSync; EPrevFrame;
             ESwipeToFrame (Fin (-7)) true; ETimer] in
  panels (run p (fresh 3) es) = 3 /\
  (exists a, active (state (run p (fresh 3) es)) = Fin a /\ -1 <= a <= 3) /\
  Forall (panel_index 3) (emitted (run p (fresh 3) es)) /\
  panel_index 3 (activeIndicator (run p (fresh 3) es)).
Proof.
  intros p es.
  destruct (X1_loop_reachable_indices p (fresh 3) es) as (H1 & H2 & H3 & H4).
  - reflexivity.
  - reflexivity.
  - split; [exists 0; split; [reflexivity | vm_compute; split; discriminate]
           | constructor].
  - subst es. repeat constructor; vm_compute; discriminate.
  - split; [exact H1 |]. split; [exact H2 |]. split; [exact H3 |].
    apply H4. reflexivity.
Defined.

(** *** Outside loop mode *)

Lemma same_geometry_minOffset p c c' :
  same_geometry c c' -> minOffset p c' = minOffset p c.
Proof.
  intros H. unfold minOffset.
  rewrite (same_geometry_size p c c' H), (same_geometry_count c c' H).
  destruct H as (_ & -> & _). reflexivity.
Qed.

(** Outside loop mode the target of a move stays in [0 .. maxCount], for
    every pace, infinite or NaN included. *)
Lemma getTargetActive_flat_range p c a mc pace :
  loop p = false -> maxCount p c = Fin mc ->
  active (state c) = Fin a -> 0 <= a <= mc ->
  exists t, getTargetActive p c pace = Fin t /\ 0 <= t <= mc.
Proof.
  intros Hl Hmc Ha Hr. unfold getTargetActive. rewrite Ha, Hl, Hmc.
  destruct (truthy pace) eqn:Htr; [| now exists a].
  destruct pace as [q | | |]; simpl in Htr; try discriminate; simpl add.
  - rewrite range_Fin. eexists; split; [reflexivity | lia].
  - exists mc. split; [reflexivity | lia].
  - unfold range. change (JS.max NInf (Fin 0)) with (Fin 0).
    rewrite min_Fin. eexists; split; [reflexivity | lia].
Qed.

Lemma flat_inv_ext p s m mc c c' :
  same_geometry c c' ->
  active (state c') = active (state c) ->
  offset (state c') = offset (state c) ->
  emitted c' = emitted c ->
  flat_inv p s m mc c -> flat_inv p s m mc c'.
Proof.
  intros Hg Ha Ho He (Hs & Hm & Hmc & Hact & Hoff & Hem).
  unfold flat_inv.
  rewrite (same_geometry_size p c c' Hg), (same_geometry_minOffset p c c' Hg),
    (same_geometry_maxCount p c c' Hg), Ha, Ho, He.
  destruct Hg as (-> & _). now repeat split.
Qed.

Lemma move_flat_inv p s m mc c pace off e :
  loop p = false -> flat_inv p s m mc c ->
  flat_inv p s m mc (move p c pace (Fin off) e).
Proof.
  intros Hl H.
  destruct (Z_le_gt_dec (panels c) 1) as [Hn | Hn];
    [now rewrite move_few |].
  destruct H as (Hs & Hm & Hmc & (a & Ha & Hr) & (o & Ho & Hor) & Hem).
  destruct (getTargetActive_flat_range p c a mc pace Hl Hmc Ha Hr)
    as (t & Ht & Htr).
  pose proof (same_geometry_move p c pace (Fin off) e) as Hg.
  unfold flat_inv.
  rewrite (same_geometry_size p _ _ Hg), (same_geometry_minOffset p _ _ Hg),
    (same_geometry_maxCount p _ _ Hg), panels_move.
  rewrite active_move, offset_move by lia. rewrite Ht.
  rewrite (getTargetOffset_flat p c t off s m Hl Hs Hm).
  split; [exact Hs |]. split; [exact Hm |]. split; [exact Hmc |].
  split; [now exists t |].
  split; [eexists; split; [reflexivity | lia] |].
  apply (emitted_move_panel_index p c pace (Fin off) e t Ht); [lia | exact Hem].
Qed.

Lemma same_geometry_set_swiping c b : same_geometry c (set_swiping c b).
Proof. now repeat split. Qed.

Lemma same_geometry_set_touch c t : same_geometry c (set_touch c t).
Proof. now repeat split. Qed.

Lemma same_geometry_autoplay p c : same_geometry c (autoplay p c).
Proof.
  unfold same_geometry. rewrite panels_autoplay, state_autoplay.
  now repeat split.
Qed.

Lemma correctPosition_flat_inv p s m mc c :
  loop p = false -> flat_inv p s m mc c ->
  flat_inv p s m mc (correctPosition p c).
Proof.
  intros Hl H.
  assert (H1 : flat_inv p s m mc (set_swiping c true))
    by (apply (flat_inv_ext p s m mc c);
        [apply same_geometry_set_swiping | reflexivity.. | exact H]).
  unfold correctPosition.
  destruct (leb _ _); [| destruct (geb _ _)];
    try apply move_flat_inv; assumption.
Qed.

Lemma autoplay_flat_inv p s m mc c :
  flat_inv p s m mc c -> flat_inv p s m mc (autoplay p c).
Proof.
  apply flat_inv_ext;
    [apply same_geometry_autoplay | now rewrite state_autoplay..
    | apply emitted_autoplay].
Qed.

Lemma handle_flat_inv p s m mc c e :
  loop p = false -> keeps_geometry e ->
  flat_inv p s m mc c -> flat_inv p s m mc (handle p c e).
Proof.
  intros Hl Hok H.
  assert (Hset : forall c', same_geometry c c' ->
            active (state c') = active (state c) ->
            offset (state c') = offset (state c) ->
            emitted c' = emitted c -> flat_inv p s m mc c')
    by (intros c' Hg Ha Ho He; now apply (flat_inv_ext p s m mc c)).
  destruct e as [root requested | root | now | reading | now | | | |
                 index immediate | immediate | | | visible]; simpl.
  - destruct root; [contradiction | exact H].
  - destruct root; [contradiction | exact H].
  - unfold onTouchStart. destruct (negb (touchable p)); [exact H |].
    apply correctPosition_flat_inv; [assumption |].
    apply Hset; now repeat split.
  - unfold onTouchMove.
    destruct (touchable p && swiping (state c)); [| exact H].
    destruct (isCorrectDirection p (set_touch c reading)).
    + apply move_flat_inv; [assumption |]. apply Hset; now repeat split.
    + apply Hset; now repeat split.
  - unfold onTouchEnd.
    destruct (negb (touchable p) || negb (swiping (state c))); [exact H |].
    apply autoplay_flat_inv.
    apply (flat_inv_ext p s m mc (perform p c (onTouchEnd_issue p now c)));
      [apply same_geometry_set_swiping | reflexivity.. |].
    destruct (onTouchEnd_issue p now c) as [| pace e]; simpl; [exact H |].
    now apply move_flat_inv.
  - unfold nav_sync.
    apply (flat_inv_ext p s m mc (correctPosition p c));
      [apply same_geometry_set_touch | reflexivity.. |].
    now apply correctPosition_flat_inv.
  - unfold prev_frame. apply move_flat_inv; [assumption |].
    apply Hset; now repeat split.
  - unfold next_frame. apply move_flat_inv; [assumption |].
    apply Hset; now repeat split.
  - unfold swipeTo_frame.
    assert (Hc : flat_inv p s m mc
                   (if immediate then c else set_swiping c false))
      by (destruct immediate; [exact H | apply Hset; now repeat split]).
    now apply move_flat_inv.
  - unfold swipeTo_settle. destruct immediate; [| exact H].
    apply Hset; now repeat split.
  - unfold timer_callback, nav_sync. apply autoplay_flat_inv.
    apply (flat_inv_ext p s m mc
             (correctPosition p (set_autoplayTimer c false)));
      [apply same_geometry_set_touch | reflexivity.. |].
    apply correctPosition_flat_inv; [assumption |].
    apply Hset; now repeat split.
  - unfold watch_autoplay. destruct (gtb _ _).
    + now apply autoplay_flat_inv.
    + apply Hset; now repeat split.
  - unfold watch_visibility. destruct visible.
    + now apply autoplay_flat_inv.
    + apply Hset; now repeat split.
Qed.

(** X2.  Outside loop mode, on a geometry with integer panel size,
    [minOffset = m] and [maxCount = mc]: if the active index is in
    [0 .. mc], the offset in [m .. 0] and the payloads emitted so far are
    panel indices, then the same holds after every sequence of events that
    carries out no initialization (touch handlers, navigation calls and
    their frame callbacks in any interleaving, timer, watchers). *)
Theorem X2_flat_reachable_bounds (p : Props) (s m mc : Z) (c : Component)
    (es : list Event) :
  loop p = false -> flat_inv p s m mc c -> Forall keeps_geometry es ->
  flat_inv p s m mc (run p c es).
Proof.
  intros Hl H Hes. revert c H.
  induction Hes as [| e es He Hes IH]; intros c H; [exact H |].
  unfold run in *. simpl. apply IH. now apply handle_flat_inv.
Qed.

Lemma X2_flat_reachable_bounds_witness :
  let p := props_with false None in
  let es := [ETouchStart 0; ETouchMove (horizontal_drag (-250));
             ETouchEnd 40; ENavSync; ENextFrame; ENavSync; ENextFrame;
             ESwipeToFrame (Fin (-4)) false; ETimer] in
  flat_inv p 100 (-200) 2 (run p flat3 es).
Proof.
  intros p es.
  apply (X2_flat_reachable_bounds p 100 (-200) 2 flat3 es).
  - reflexivity.
  - repeat split.
    + exists 0. split; [reflexivity | lia].
    + exists 0. split; [reflexivity | lia].
    + constructor.
  - subst es. repeat constructor.
Defined.

(** ** Gestures *)

Lemma surroundings_move_edges p c t :
  touch (move_edges p c t) = touch c /\
  touchStartTime (move_edges p c t) = touchStartTime c /\
  autoplayTimer (move_edges p c t) = autoplayTimer c.
Proof.
  unfold move_edges, setOffset.
  now destruct (sne t (minOffset p c)), (sne t (Fin 0)).
Qed.

(** [move] touches neither the touch tracker nor the timer. *)
Lemma surroundings_move p c pace off e :
  touch (move p c pace off e) = touch c /\
  touchStartTime (move p c pace off e) = touchStartTime c /\
  autoplayTimer (move p c pace off e) = autoplayTimer c.
Proof.
  unfold move.
  destruct (leb (count c) (Fin 1)); [now repeat split |].
  destruct (loop p);
    destruct (e && sne (getTargetActive p c pace) (active (state c)));
    simpl; try apply surroundings_move_edges; now repeat split.
Qed.

Lemma surroundings_correctPosition p c :
  touch (correctPosition p c) = touch c /\
  touchStartTime (correctPosition p c) = touchStartTime c /\
  autoplayTimer (correctPosition p c) = autoplayTimer c.
Proof.
  unfold correctPosition.
  destruct (leb _ _); [| destruct (geb _ _)];
    try apply (surroundings_move p (set_swiping c true));
    now repeat split.
Qed.

Lemma same_geometry_getTargetOffset p c c' t off :
  same_geometry c c' ->
  getTargetOffset p c' t off = getTargetOffset p c t off.
Proof.
  intros Hg. unfold getTargetOffset.
  now rewrite (same_geometry_size p c c' Hg),
    (same_geometry_minOffset p c c' Hg).
Qed.

Lemma at_rest_ext p c c' :
  same_geometry c c' ->
  active (state c') = active (state c) ->
  offset (state c') = offset (state c) ->
  at_rest p c -> at_rest p c'.
Proof.
  intros Hg Ha Ho H. unfold at_rest.
  now rewrite (same_geometry_getTargetOffset p c c' _ _ Hg), Ha, Ho.
Qed.

(** A move without drag offset leaves the track at rest. *)
Lemma at_rest_move p c pace e :
  at_rest p c -> at_rest p (move p c pace (Fin 0) e).
Proof.
  intros H.
  destruct (Z_le_gt_dec (panels c) 1) as [Hn | Hn];
    [now rewrite move_few |].
  unfold at_rest.
  rewrite (same_geometry_getTargetOffset p c _ _ _
             (same_geometry_move p c pace (Fin 0) e)).
  now rewrite active_move, offset_move by lia.
Qed.

Lemma at_rest_correctPosition p c :
  at_rest p c -> at_rest p (correctPosition p c).
Proof.
  intros H.
  assert (H1 : at_rest p (set_swiping c true))
    by (apply (at_rest_ext p c);
        [apply same_geometry_set_swiping | reflexivity.. | exact H]).
  unfold correctPosition.
  destruct (leb _ _); [| destruct (geb _ _)];
    try apply at_rest_move; assumption.
Qed.

Lemma dragging_onTouchStart p start c :
  touchable p = true -> at_rest p c ->
  dragging p (onTouchStart p start c) /\
  autoplayTimer (onTouchStart p start c) = false.
Proof.
  intros Ht H. unfold onTouchStart. rewrite Ht. simpl negb. cbv iota.
  set (c0 := stopAutoplay (set_touchStartTime (set_touch c touch_reset)
                             (Some start))).
  assert (H0 : at_rest p c0)
    by (apply (at_rest_ext p c); [now repeat split | reflexivity.. | exact H]).
  pose proof (at_rest_correctPosition p c0 H0) as H1.
  destruct (surroundings_correctPosition p c0) as (Htouch & _ & Htimer).
  split; [| now rewrite Htimer].
  split; [apply correctPosition_swiping |].
  destruct (1 <? panels _); [| exact H1].
  unfold delta. rewrite Htouch. subst c0. simpl.
  destruct (vertical p); exact H1.
Qed.

Lemma dragging_onTouchMove p r c :
  touchable p = true -> along_axis p r -> dragging p c ->
  dragging p (onTouchMove p r c) /\
  autoplayTimer (onTouchMove p r c) = autoplayTimer c.
Proof.
  intros Ht Hr (Hsw & H). unfold onTouchMove. rewrite Ht, Hsw. simpl andb.
  cbv iota.
  assert (Hdir : isCorrectDirection p (set_touch c r) = true).
  { unfold isCorrectDirection. simpl. rewrite Hr.
    now destruct (vertical p). }
  rewrite Hdir.
  set (c1 := set_touch c r).
  destruct (surroundings_move p c1 (Fin 0) (Fin (delta p c1)) false)
    as (Htouch & _ & Htimer).
  split; [| exact Htimer].
  split.
  { now destruct (frame_move p c1 (Fin 0) (Fin (delta p c1)) false)
      as (_ & _ & _ & ->). }
  rewrite panels_move. change (panels c1) with (panels c).
  destruct (Z.ltb_spec 1 (panels c)) as [Hn | Hn].
  - rewrite offset_move, active_move by exact Hn.
    rewrite getTargetActive_zero.
    rewrite (same_geometry_getTargetOffset p c1 _ _ _
               (same_geometry_move p c1 (Fin 0) (Fin (delta p c1)) false)).
    unfold delta at 2. now rewrite Htouch.
  - rewrite move_few by exact Hn.
    apply (at_rest_ext p c); [now repeat split | reflexivity.. | exact H].
Qed.

Lemma dragging_moves p readings :
  touchable p = true -> Forall (along_axis p) readings ->
  forall c, dragging p c ->
  dragging p (fold_left (fun c r => onTouchMove p r c) readings c) /\
  autoplayTimer (fold_left (fun c r => onTouchMove p r c) readings c) =
    autoplayTimer c.
Proof.
  intros Ht Hrs. induction Hrs as [| r rs Hr Hrs IH]; intros c H;
    [now split |].
  simpl.
  destruct (dragging_onTouchMove p r c Ht Hr H) as (H1 & Htimer).
  destruct (IH _ H1) as (H2 & Htimer2).
  split; [exact H2 | now rewrite Htimer2].
Qed.

Lemma at_rest_onTouchEnd p finish c :
  touchable p = true -> dragging p c ->
  at_rest p (onTouchEnd p finish c) /\
  swiping (state (onTouchEnd p finish c)) = false /\
  autoplayTimer (onTouchEnd p finish c) =
    (gtb (autoplay_prop p) (Fin 0) && (1 <? panels c) || autoplayTimer c).
Proof.
  intros Ht (Hsw & H). unfold onTouchEnd. rewrite Ht, Hsw. simpl. 
  set (c1 := perform p c (onTouchEnd_issue p finish c)).
  assert (Hrest : at_rest p c1).
  { subst c1. unfold onTouchEnd_issue.
    assert (Hc : 1 < panels c -> delta p c = 0 -> at_rest p c).
    { intros Hn Hd. destruct (Z.ltb_spec 1 (panels c)); [| lia].
      unfold at_rest. now rewrite H, Hd. }
    assert (Hmove : forall pace e, at_rest p (move p c pace (Fin 0) e)).
    { intros pace e.
      destruct (Z_le_gt_dec (panels c) 1) as [Hn | Hn].
      - rewrite move_few by exact Hn.
        destruct (Z.ltb_spec 1 (panels c)); [lia | exact H].
      - unfold at_rest.
        rewrite (same_geometry_getTargetOffset p c _ _ _
                   (same_geometry_move p c pace (Fin 0) e)).
        now rewrite active_move, offset_move by lia. }
    destruct (_ && _); [apply Hmove |].
    destruct (Z.eqb_spec (delta p c) 0) as [Hd | Hd]; simpl;
      [| apply Hmove].
    destruct (Z.ltb_spec 1 (panels c)); [now apply Hc | exact H]. }
  assert (Hg : same_geometry c1 (autoplay p (set_swiping c1 false))).
  { apply (same_geometry_trans _ (set_swiping c1 false));
      [apply same_geometry_set_swiping | apply same_geometry_autoplay]. }
  split; [| split].
  - apply (at_rest_ext p c1);
      [exact Hg | now rewrite state_autoplay.. | exact Hrest].
  - now rewrite state_autoplay.
  - unfold autoplay.
    change (count (set_swiping c1 false)) with (Fin (panels c1)).
    rewrite gtb_Fin.
    assert (Hp : panels c1 = panels c).
    { subst c1. destruct (onTouchEnd_issue p finish c); simpl;
        [reflexivity | apply panels_move]. }
    assert (Htm : autoplayTimer c1 = autoplayTimer c).
    { subst c1. destruct (onTouchEnd_issue p finish c); simpl;
        [reflexivity | apply surroundings_move]. }
    rewrite Hp.
    destruct (gtb (autoplay_prop p) (Fin 0) && (1 <? panels c)); simpl;
      [reflexivity | exact Htm].
Qed.

(** X3.  With [touchable] on, a whole gesture on a track at rest (touch
    start, any number of touch moves along the configured axis, touch end)
    leaves the track at rest again: [swiping] is cleared and the offset is
    the resting offset of the active index the gesture ends on, whether
    it committed or snapped back.  The autoplay timer is pending
    afterwards exactly when [props.autoplay > 0] and there is more than one
    panel. *)
Theorem X3_gesture_ends_at_rest (p : Props) (start finish : Z)
    (readings : list Touch) (c : Component) :
  touchable p = true -> at_rest p c -> Forall (along_axis p) readings ->
  at_rest p (gesture p start readings finish c) /\
  swiping (state (gesture p start readings finish c)) = false /\
  autoplayTimer (gesture p start readings finish c) =
    (gtb (autoplay_prop p) (Fin 0) && (1 <? panels c)).
Proof.
  intros Ht H Hrs. unfold gesture.
  destruct (dragging_onTouchStart p start c Ht H) as (H1 & Htm1).
  destruct (dragging_moves p readings Ht Hrs _ H1) as (H2 & Htm2).
  destruct (at_rest_onTouchEnd p finish _ Ht H2) as (H3 & Hsw & Htm3).
  split; [exact H3 |]. split; [exact Hsw |].
  rewrite Htm3, Htm2, Htm1, orb_false_r.
  f_equal. f_equal.
  transitivity (panels (onTouchStart p start c)).
  - clear. induction readings as [| r rs IH] using rev_ind; [reflexivity |].
    rewrite fold_left_app. simpl.
    change (panels (handle p (fold_left (fun c r => onTouchMove p r c) rs
                                (onTouchStart p start c)) (ETouchMove r)) =
            panels (onTouchStart p start c)).
    now rewrite panels_handle.
  - apply (panels_handle p c (ETouchStart start)).
Qed.

Lemma X3_gesture_ends_at_rest_witness :
  let p := props_with true None in
  let c := gesture p 0 [horizontal_drag (-30); horizontal_drag (-80)] 100
             loop3 in
  at_rest p c /\ swiping (state c) = false /\ autoplayTimer c = false /\
  active (state c) = Fin 1.
Proof.
  intros p c.
  destruct (X3_gesture_ends_at_rest p 0 100
              [horizontal_drag (-30); horizontal_drag (-80)] loop3)
    as (H1 & H2 & H3).
  - reflexivity.
  - reflexivity.
  - repeat constructor.
  - split; [exact H1 |]. split; [exact H2 |]. split; [exact H3 | reflexivity].
Defined.

(** ** [next] and [prev] in loop mode *)

(** In loop mode [correctPosition] brings an active index of
    [-1 .. count] to its residue modulo [count]. *)
Lemma correctPosition_loop_mod p c a :
  loop p = true -> 1 < panels c ->
  active (state c) = Fin a -> -1 <= a <= panels c ->
  active (state (correctPosition p c)) = Fin (a mod panels c).
Proof.
  intros Hl Hn Ha Hr. rewrite (correctPosition_active p c a Hl Hn Ha).
  f_equal.
  destruct (Z.leb_spec a (-1)).
  - assert (a = -1) as -> by lia.
    rewrite <- (Z_mod_plus_full (-1) 1 (panels c)).
    rewrite Z.mod_small; lia.
  - destruct (Z.leb_spec (panels c) a).
    + assert (a = panels c) as -> by lia.
      rewrite Z_mod_same_full. lia.
    + rewrite Z.mod_small; lia.
Qed.

Lemma activeIndicator_move p c pace off e :
  1 < panels c ->
  activeIndicator (move p c pace off e) =
  rem (add (getTargetActive p c pace) (count c)) (count c).
Proof.
  intros Hn. unfold activeIndicator.
  now rewrite active_move, count_move.
Qed.

(** A step of [d = 1] or [d = -1] from the corrected position, as [next]
    and [prev] take it. *)
Lemma step_loop p c a d :
  loop p = true -> 1 < panels c ->
  active (state c) = Fin a -> -1 <= a <= panels c -> d = 1 \/ d = -1 ->
  let c' := move p (set_swiping (nav_sync p c) false) (Fin d) (Fin 0) true in
  active (state c') = Fin (a mod panels c + d) /\
  activeIndicator c' = Fin ((a mod panels c + d) mod panels c) /\
  emitted c' = emitted c ++ [Fin ((a mod panels c + d) mod panels c)].
Proof.
  intros Hl Hn Ha Hr Hd. cbv zeta.
  pose proof (correctPosition_loop_mod p c a Hl Hn Ha Hr) as Ha0.
  pose proof (Z.mod_pos_bound a (panels c) ltac:(lia)) as Hb.
  set (a0 := a mod panels c) in *.
  set (c0 := set_swiping (nav_sync p c) false).
  assert (Hp0 : panels c0 = panels c).
  { change (panels (correctPosition p c) = panels c).
    apply panels_correctPosition. }
  assert (Hn0 : 1 < panels c0) by now rewrite Hp0.
  assert (Hact0 : active (state c0) = Fin a0) by exact Ha0.
  assert (Ht : getTargetActive p c0 (Fin d) = Fin (a0 + d)).
  { rewrite (getTargetActive_loop p c0 a0 d Hl Hact0) by lia.
    rewrite Hp0. f_equal. lia. }
  assert (Hind : activeIndicator (move p c0 (Fin d) (Fin 0) true) =
                 Fin ((a0 + d) mod panels c)).
  { rewrite <- Hp0.
    rewrite <- (panels_move p c0 (Fin d) (Fin 0) true).
    apply activeIndicator_Fin.
    - now rewrite panels_move.
    - now rewrite active_move.
    - rewrite panels_move. lia. }
  split; [| split].
  - now rewrite active_move.
  - exact Hind.
  - rewrite <- Hind. rewrite emitted_move, Ht, Hact0.
    destruct (Z.ltb_spec 1 (panels c0)); [| lia].
    rewrite sne_Fin. destruct (Z.eqb_spec (a0 + d) a0); [lia |].
    simpl. f_equal.
    change (emitted (correctPosition p c) = emitted c).
    apply emitted_correctPosition.
Qed.

(** X4.  In loop mode with more than one panel and the active index in
    [-1 .. count], [next()] moves [activeIndicator] from [i] to
    [(i + 1) mod count] and [prev()] to [(i - 1) mod count], wrapping
    around at either end, and each emits exactly one ['change'] carrying
    the new indicator. *)
Theorem X4_next_prev_loop (p : Props) (c : Component) (a : Z) :
  loop p = true -> 1 < panels c ->
  active (state c) = Fin a -> -1 <= a <= panels c ->
  let n := panels c in
  let i := a mod n in
  activeIndicator c = Fin i /\
  activeIndicator (next p c) = Fin ((i + 1) mod n) /\
  emitted (next p c) = emitted c ++ [Fin ((i + 1) mod n)] /\
  activeIndicator (prev p c) = Fin ((i - 1) mod n) /\
  emitted (prev p c) = emitted c ++ [Fin ((i - 1) mod n)].
Proof.
  intros Hl Hn Ha Hr n i.
  destruct (step_loop p c a 1 Hl Hn Ha Hr (or_introl eq_refl))
    as (_ & Hn1 & Hn2).
  destruct (step_loop p c a (-1) Hl Hn Ha Hr (or_intror eq_refl))
    as (_ & Hp1 & Hp2).
  split; [apply activeIndicator_Fin; (assumption || lia) |].
  now repeat split.
Qed.

Lemma X4_next_prev_loop_witness :
  let p := props_with true None in
  activeIndicator (next p loop3_end) = Fin 0 /\
  emitted (next p loop3_end) = emitted loop3_end ++ [Fin 0] /\
  activeIndicator (prev p loop3) = Fin 2.
Proof.
  intros p.
  destruct (X4_next_prev_loop p loop3_end 2 eq_refl eq_refl eq_refl)
    as (_ & H1 & H2 & _).
  { vm_compute. split; discriminate. }
  destruct (X4_next_prev_loop p loop3 0 eq_refl eq_refl eq_refl)
    as (_ & _ & _ & H3 & _).
  { vm_compute. split; discriminate. }
  split; [exact H1 |]. split; [exact H2 | exact H3].
Defined.

(** X5.  In loop mode with more than one panel and the active index in
    [-1 .. count], [prev()] after [next()] and [next()] after [prev()]
    bring [activeIndicator] back to where it was, also across the ends of
    the track. *)
Theorem X5_next_prev_round_trip (p : Props) (c : Component) (a : Z) :
  loop p = true -> 1 < panels c ->
  active (state c) = Fin a -> -1 <= a <= panels c ->
  activeIndicator (prev p (next p c)) = activeIndicator c /\
  activeIndicator (next p (prev p c)) = activeIndicator c.
Proof.
  intros Hl Hn Ha Hr.
  pose proof (Z.mod_pos_bound a (panels c) ltac:(lia)) as Hb.
  rewrite (activeIndicator_Fin c a) by (assumption || lia).
  destruct (step_loop p c a 1 Hl Hn Ha Hr (or_introl eq_refl))
    as (Hn1 & _ & _).
  destruct (step_loop p c a (-1) Hl Hn Ha Hr (or_intror eq_refl))
    as (Hp1 & _ & _).
  assert (Hpn : panels (next p c) = panels c).
  { unfold next, next_frame. rewrite panels_move.
    change (panels (correctPosition p c) = panels c).
    apply panels_correctPosition. }
  assert (Hpp : panels (prev p c) = panels c).
  { unfold prev, prev_frame. rewrite panels_move.
    change (panels (correctPosition p c) = panels c).
    apply panels_correctPosition. }
  split.
  - pose proof (step_loop p (next p c) (a mod panels c + 1) (-1) Hl
                  ltac:(rewrite Hpn; lia) Hn1 ltac:(rewrite Hpn; lia)
                  (or_intror eq_refl)) as (_ & H & _).
    rewrite Hpn in H.
    unfold prev, prev_frame. rewrite H. f_equal.
    rewrite Zplus_mod_idemp_l.
    replace (a mod panels c + 1 + -1) with (a mod panels c) by lia.
    apply Z.mod_mod. lia.
  - pose proof (step_loop p (prev p c) (a mod panels c + -1) 1 Hl
                  ltac:(rewrite Hpp; lia) Hp1 ltac:(rewrite Hpp; lia)
                  (or_introl eq_refl)) as (_ & H & _).
    rewrite Hpp in H.
    unfold next, next_frame. rewrite H. f_equal.
    rewrite Zplus_mod_idemp_l.
    replace (a mod panels c + -1 + 1) with (a mod panels c) by lia.
    apply Z.mod_mod. lia.
Qed.

Lemma X5_next_prev_round_trip_witness :
  let p := props_with true None in
  activeIndicator (prev p (next p loop3_end)) = activeIndicator loop3_end /\
  activeIndicator (next p (prev p loop3_end)) = activeIndicator loop3_end.
Proof.
  apply (X5_next_prev_round_trip (props_with true None) loop3_end 2);
    try reflexivity.
  vm_compute. split; discriminate.
Defined.

(** ** Where [swipeTo] arrives *)

(** The active index a loop-mode [swipeTo(i)], [i >= 0], arrives at. *)
Lemma swipeTo_loop_active p c a i imm :
  loop p = true -> 1 < panels c ->
  active (state c) = Fin a -> -1 <= a <= panels c -> 0 <= i ->
  exists T,
    getTargetActive p (correctPosition p c)
      (sub (swipeTo_target p (correctPosition p c) (Fin i))
           (active (state (correctPosition p c)))) = Fin T /\
    active (state (swipeTo p (Fin i) imm c)) = Fin T /\
    0 <= T <= panels c /\
    T mod panels c = i mod panels c /\
    (T = a mod panels c <-> i mod panels c = a mod panels c).
Proof.
  intros Hl Hn Ha Hr Hi.
  pose proof (correctPosition_loop_mod p c a Hl Hn Ha Hr) as Ha0.
  pose proof (Z.mod_pos_bound a (panels c) ltac:(lia)) as Hb.
  pose proof (Z.mod_pos_bound i (panels c) ltac:(lia)) as Hbi.
  pose proof (panels_correctPosition p c) as Hp0.
  destruct (swipeTo_big p c (Fin i) imm Hn) as (Hact & _).
  rewrite Hact. clear Hact.
  set (c0 := correctPosition p c) in *.
  set (n := panels c) in *. set (a0 := a mod n) in *.
  assert (Htarget : exists t,
            swipeTo_target p c0 (Fin i) = Fin t /\ 0 <= t <= n /\
            t mod n = i mod n /\ (t = a0 <-> i mod n = a0)).
  { destruct (Z.eq_dec i n) as [-> | Hin].
    - unfold swipeTo_target. rewrite Hl, Ha0.
      change (count c0) with (Fin (panels c0)). rewrite Hp0.
      rewrite !seq_Fin, Z.eqb_refl. simpl andb. cbv iota.
      rewrite Z_mod_same_full.
      destruct (Z.eqb_spec a0 0) as [E | E].
      + exists 0. rewrite Z.mod_0_l by lia. repeat split; lia.
      + exists n. rewrite Z_mod_same_full. repeat split; lia.
    - rewrite swipeTo_target_rem by (rewrite ?Hp0; tauto || lia).
      rewrite Hp0, Z.rem_mod_nonneg by lia.
      exists (i mod n). rewrite Z.mod_mod by lia. repeat split; lia. }
  destruct Htarget as (t & -> & Ht & Htm & Hta).
  rewrite Ha0. simpl sub.
  rewrite (getTargetActive_resolve p c0 a0 (t + - a0) 0 Ha0)
    by (intros Hf; congruence).
  rewrite Hl, Hp0. unfold resolve.
  exists t. destruct (Z.eqb_spec (t + - a0) 0) as [E | E].
  - assert (a0 = t) by lia. subst t. repeat split; (reflexivity || lia || tauto).
  - replace (Z.min (Z.max (a0 + (t + - a0)) (-1)) n) with t by lia.
    repeat split; (reflexivity || lia || tauto).
Qed.

(** X6.  In loop mode with more than one panel and the active index in
    [-1 .. count], [swipeTo(i)] for [i >= 0] brings [activeIndicator] to
    [i mod count] (the index [count] included, which shows panel 0), and
    it emits one ['change'], carrying that indicator, exactly when the
    indicator was a different one before; otherwise it emits nothing. *)
Theorem X6_swipeTo_loop_arrives (p : Props) (c : Component) (a i : Z)
    (immediate : bool) :
  loop p = true -> 1 < panels c ->
  active (state c) = Fin a -> -1 <= a <= panels c -> 0 <= i ->
  activeIndicator (swipeTo p (Fin i) immediate c) = Fin (i mod panels c) /\
  emitted (swipeTo p (Fin i) immediate c) =
    if i mod panels c =? a mod panels c then emitted c
    else emitted c ++ [Fin (i mod panels c)].
Proof.
  intros Hl Hn Ha Hr Hi.
  destruct (swipeTo_loop_active p c a i immediate Hl Hn Ha Hr Hi)
    as (T & HT & Hact & HTr & HTm & HTa).
  pose proof (same_geometry_swipeTo p c (Fin i) immediate) as (Hp & _).
  assert (Hind : activeIndicator (swipeTo p (Fin i) immediate c) =
                 Fin (i mod panels c)).
  { rewrite <- HTm, <- Hp. apply activeIndicator_Fin; rewrite ?Hp;
      (assumption || lia). }
  split; [exact Hind |].
  rewrite swipeTo_emitted by assumption.
  rewrite HT, (correctPosition_loop_mod p c a Hl Hn Ha Hr), sne_Fin, Hind.
  destruct (Z.eqb_spec T (a mod panels c)) as [E | E];
    destruct (Z.eqb_spec (i mod panels c) (a mod panels c)) as [F | F];
    simpl; try reflexivity; tauto.
Qed.

Lemma X6_swipeTo_loop_arrives_witness :
  let p := props_with true None in
  activeIndicator (swipeTo p (Fin 3) false loop3_end) =
    Fin (3 mod panels loop3_end) /\
  emitted (swipeTo p (Fin 3) false loop3_end) =
    if 3 mod panels loop3_end =? 2 mod panels loop3_end
    then emitted loop3_end
    else emitted loop3_end ++ [Fin (3 mod panels loop3_end)].
Proof.
  apply (X6_swipeTo_loop_arrives (props_with true None) loop3_end 2 3 false);
    try reflexivity.
  - vm_compute. split; discriminate.
  - lia.
Defined.

(** ** [next] and [prev] outside loop mode *)

Lemma step_flat p c a mc d :
  loop p = false -> 1 < panels c -> maxCount p c = Fin mc ->
  active (state c) = Fin a -> 0 <= a <= mc -> a < panels c -> d <> 0 ->
  let t := Z.min (Z.max (a + d) 0) mc in
  let c' := move p (set_swiping (nav_sync p c) false) (Fin d) (Fin 0) true in
  active (state c') = Fin t /\
  emitted c' =
    if t =? a then emitted c else emitted c ++ [Fin (t mod panels c)].
Proof.
  intros Hl Hn Hmc Ha Hr Han Hd. cbv zeta.
  assert (Hcp : correctPosition p c = set_swiping c true)
    by (apply (correctPosition_in_range p c a Ha); lia).
  unfold nav_sync. rewrite Hcp.
  set (c0 := set_swiping (set_touch (set_swiping c true) touch_reset) false).
  assert (Ht : getTargetActive p c0 (Fin d) =
               Fin (Z.min (Z.max (a + d) 0) mc)).
  { rewrite (getTargetActive_resolve p c0 a d mc Ha) by (intros _; exact Hmc).
    unfold resolve. rewrite Hl.
    destruct (Z.eqb_spec d 0); [contradiction | reflexivity]. }
  split; [now rewrite active_move |].
  assert (Hp0 : panels c0 = panels c) by reflexivity.
  assert (Ha0 : active (state c0) = Fin a) by exact Ha.
  assert (He0 : emitted c0 = emitted c) by reflexivity.
  rewrite emitted_move, Ht, Hp0, Ha0, He0, sne_Fin.
  destruct (Z.ltb_spec 1 (panels c)); [| lia]. simpl andb.
  destruct (Z.eqb_spec (Z.min (Z.max (a + d) 0) mc) a); simpl;
    [reflexivity |].
  f_equal. f_equal.
  rewrite <- Hp0, <- (panels_move p c0 (Fin d) (Fin 0) true).
  apply activeIndicator_Fin.
  - now rewrite panels_move, Hp0.
  - now rewrite active_move by (rewrite Hp0; exact Hn).
  - rewrite panels_move, Hp0. lia.
Qed.

(** X7.  Outside loop mode with more than one panel, [maxCount = mc] and
    the active index [a] in [0 .. mc] and below [count]: [next()] stores
    [min(a + 1, mc)] and [prev()] stores [max(a - 1, 0)]; each emits one
    ['change'] when the index changes, and nothing at the end of the track
    ([a = mc] for [next], [a = 0] for [prev]).  The payload of [prev] is
    the new index; the payload of [next] is the new index reduced modulo
    [count], which is the new index itself whenever [maxCount < count]
    (with [maxCount >= count] a [next()] from the last panel stores
    [count] and emits 0). *)
Theorem X7_next_prev_flat (p : Props) (c : Component) (a mc : Z) :
  loop p = false -> 1 < panels c -> maxCount p c = Fin mc ->
  active (state c) = Fin a -> 0 <= a <= mc -> a < panels c ->
  active (state (next p c)) = Fin (Z.min (a + 1) mc) /\
  emitted (next p c) =
    (if a <? mc then emitted c ++ [Fin ((a + 1) mod panels c)]
     else emitted c) /\
  active (state (prev p c)) = Fin (Z.max (a - 1) 0) /\
  emitted (prev p c) =
    (if 0 <? a then emitted c ++ [Fin (a - 1)] else emitted c) /\
  (mc < panels c ->
   emitted (next p c) =
     (if a <? mc then emitted c ++ [Fin (a + 1)] else emitted c)).
Proof.
  intros Hl Hn Hmc Ha Hr Han.
  assert (Hsmall : mc < panels c -> a < mc ->
            (a + 1) mod panels c = a + 1)
    by (intros H1 H2; apply Z.mod_small; lia).
  cut ((active (state (next p c)) = Fin (Z.min (a + 1) mc) /\
        emitted (next p c) =
          (if a <? mc then emitted c ++ [Fin ((a + 1) mod panels c)]
           else emitted c) /\
        active (state (prev p c)) = Fin (Z.max (a - 1) 0) /\
        emitted (prev p c) =
          (if 0 <? a then emitted c ++ [Fin (a - 1)] else emitted c))).
  { intros (H1 & H2 & H3 & H4). repeat split; try assumption.
    intros Hsm. rewrite H2. destruct (Z.ltb_spec a mc); [| reflexivity].
    now rewrite Hsmall. }
  destruct (step_flat p c a mc 1 Hl Hn Hmc Ha Hr Han ltac:(lia))
    as (Hn1 & Hn2).
  destruct (step_flat p c a mc (-1) Hl Hn Hmc Ha Hr Han ltac:(lia))
    as (Hp1 & Hp2).
  unfold next, next_frame, prev, prev_frame.
  rewrite Hn1, Hn2, Hp1, Hp2.
  split; [f_equal; lia |]. split; [| split; [f_equal; lia |]].
  - destruct (Z.ltb_spec a mc);
      destruct (Z.eqb_spec (Z.min (Z.max (a + 1) 0) mc) a); try lia;
      [| reflexivity].
    replace (Z.min (Z.max (a + 1) 0) mc) with (a + 1) by lia.
    reflexivity.
  - destruct (Z.ltb_spec 0 a);
      destruct (Z.eqb_spec (Z.min (Z.max (a + -1) 0) mc) a); try lia;
      [| reflexivity].
    replace (Z.min (Z.max (a + -1) 0) mc) with (a - 1) by lia.
    rewrite Z.mod_small by lia. reflexivity.
Qed.

Lemma X7_next_prev_flat_witness :
  let p := props_with false None in
  let c := next p (next p flat3) in
  active (state (next p c)) = Fin (Z.min (2 + 1) 2) /\
  emitted (next p c) =
    (if 2 <? 2 then emitted c ++ [Fin ((2 + 1) mod panels c)]
     else emitted c) /\
  active (state (prev p c)) = Fin (Z.max (2 - 1) 0) /\
  emitted (prev p c) =
    (if 0 <? 2 then emitted c ++ [Fin (2 - 1)] else emitted c) /\
  (2 < panels c ->
   emitted (next p c) =
     (if 2 <? 2 then emitted c ++ [Fin (2 + 1)] else emitted c)).
Proof.
  apply (X7_next_prev_flat (props_with false None)
           (next (props_with false None) (next (props_with false None) flat3))
           2 2); try reflexivity; lia.
Defined.

(** With panels wider than the container [maxCount] reaches [count]:
    three panels of 150 pixels in 100 pixels give [maxCount = 3], and
    [next()] from the last panel stores 3 and emits 0. *)
Example next_past_last_panel :
  let p := props_with false (Some (Fin 150)) in
  let c := next p (next p (mounted p 100 3 0)) in
  maxCount p c = Fin 3 /\ active (state c) = Fin 2 /\
  active (state (next p c)) = Fin 3 /\
  emitted (next p c) = emitted c ++ [Fin 0].
Proof. vm_compute. repeat split. Qed.

(** ** Initialization and [resize] *)

Lemma component_eq c c' :
  state c = state c' -> children c = children c' -> touch c = touch c' ->
  touchStartTime c = touchStartTime c' ->
  autoplayTimer c = autoplayTimer c' -> emitted c = emitted c' -> c = c'.
Proof.
  destruct c, c'. simpl. intros. now subst.
Qed.

Lemma surroundings_autoplay p c :
  touch (autoplay p c) = touch c /\
  touchStartTime (autoplay p c) = touchStartTime c /\
  autoplayTimer (autoplay p c) =
    (gtb (autoplay_prop p) (Fin 0) && (1 <? panels c) || autoplayTimer c).
Proof.
  unfold autoplay. change (count c) with (Fin (panels c)). rewrite gtb_Fin.
  destruct (gtb (autoplay_prop p) (Fin 0) && (1 <? panels c)); now repeat split.
Qed.

Lemma surroundings_initialize p r c requested :
  children (initialize p (Some r) c requested) =
    map (fun _ => Fin 0) (children c) /\
  touch (initialize p (Some r) c requested) = touch c /\
  touchStartTime (initialize p (Some r) c requested) = touchStartTime c /\
  autoplayTimer (initialize p (Some r) c requested) =
    (gtb (autoplay_prop p) (Fin 0) && (1 <? panels c)).
Proof.
  unfold initialize.
  set (c1 := set_children _ _).
  destruct (surroundings_autoplay p c1) as (-> & -> & ->).
  rewrite children_autoplay.
  assert (Hp : panels c1 = panels c)
    by (unfold panels; subst c1; simpl; now rewrite length_map).
  rewrite Hp. subst c1. simpl. now rewrite orb_false_r.
Qed.

(** [Math.min(x, Math.min(x, y))] is [Math.min(x, y)]. *)
Lemma min_min x y : JS.min x (JS.min x y) = JS.min x y.
Proof.
  destruct x as [a | | |], y as [b | | |]; try reflexivity;
    try (unfold JS.min; simpl; now rewrite Z.compare_refl).
  rewrite !min_Fin. f_equal. lia.
Qed.

(** The state an initialization stores depends on the component only
    through its number of panels and the index it clamps. *)
Lemma initialize_state_congr p r c c' requested requested' :
  length (children c) = length (children c') ->
  (if truthy (count c) then JS.min (sub (count c) (Fin 1)) requested
   else requested) =
  (if truthy (count c') then JS.min (sub (count c') (Fin 1)) requested'
   else requested') ->
  state (initialize p (Some r) c requested) =
  state (initialize p (Some r) c' requested').
Proof.
  intros Hlen Hidx. unfold initialize. rewrite !state_autoplay.
  unfold count in Hidx.
  unfold set_children, set_active_offset, set_state, stopAutoplay,
    set_autoplayTimer, getTargetOffset, minOffset, size, count.
  cbn [state children rect width height offset active swiping].
  rewrite Hidx, Hlen. reflexivity.
Qed.

Lemma at_rest_initialize p r c requested :
  at_rest p (initialize p (Some r) c requested).
Proof.
  unfold initialize.
  match goal with
  | |- at_rest p (autoplay p (set_children ?x ?l)) =>
      apply (at_rest_ext p x);
        [| now rewrite state_autoplay | now rewrite state_autoplay
         | reflexivity]
  end.
  unfold same_geometry. rewrite panels_autoplay, state_autoplay.
  unfold panels. simpl. rewrite length_map. now repeat split.
Qed.

(** X8.  [resize()] is idempotent: with unchanged measurements (or with
    the root element still missing or hidden) a second [resize()] leaves
    the whole component as the first one left it.  Every initialization
    that is carried out leaves the track at rest, at the offset of the
    active index it stores. *)
Theorem X8_resize_idempotent (p : Props) (root : option Rect)
    (c : Component) :
  resize p root (resize p root c) = resize p root c /\
  (forall r requested, at_rest p (initialize p (Some r) c requested)).
Proof.
  split; [| intros r requested; apply at_rest_initialize].
  destruct root as [r |]; [| reflexivity].
  unfold resize.
  set (c' := initialize p (Some r) c (active (state c))).
  destruct (surroundings_initialize p r c (active (state c)))
    as (Hch & Htouch & Hstart & Htimer).
  destruct (surroundings_initialize p r c' (active (state c')))
    as (Hch' & Htouch' & Hstart' & Htimer').
  fold c' in Hch, Htouch, Hstart, Htimer.
  assert (Hlen : length (children c') = length (children c))
    by (rewrite Hch; apply length_map).
  apply component_eq.
  - apply initialize_state_congr; [exact Hlen |].
    unfold count. rewrite Hlen. subst c'. rewrite initialize_active.
    unfold count.
    destruct (truthy _); [apply min_min | reflexivity].
  - rewrite Hch', Hch, map_map. reflexivity.
  - now rewrite Htouch', Htouch.
  - now rewrite Hstart', Hstart.
  - rewrite Htimer', Htimer. unfold panels. now rewrite Hlen.
  - now rewrite !emitted_initialize.
Qed.

(** ** The indicator dots *)

Lemma lookup_map_seq {A} (f : nat -> A) n :
  forall start k, (k < n)%nat ->
  map f (List.seq start n) !! k = Some (f (start + k)%nat).
Proof.
  induction n as [| n IH]; intros start k Hk; [lia |].
  destruct k as [| k]; simpl.
  - now rewrite Nat.add_0_r.
  - rewrite IH by lia. f_equal. f_equal. lia.
Qed.

Lemma active_dots_seq j n :
  forall start,
  active_dots (map (fun k => Z.of_nat k =? j) (List.seq start n)) =
  if (Z.of_nat start <=? j) && (j <? Z.of_nat (start + n)) then 1%nat
  else 0%nat.
Proof.
  unfold active_dots.
  induction n as [| n IH]; intros start; simpl.
  - destruct (Z.leb_spec (Z.of_nat start) j), (Z.ltb_spec j (Z.of_nat (start + 0)));
      simpl; (reflexivity || lia).
  - specialize (IH (S start)).
    destruct (Z.eqb_spec (Z.of_nat start) j) as [E | E]; simpl;
      rewrite IH;
      destruct (Z.leb_spec (Z.of_nat (S start)) j),
               (Z.ltb_spec j (Z.of_nat (S start + n))),
               (Z.leb_spec (Z.of_nat start) j),
               (Z.ltb_spec j (Z.of_nat (start + S n)));
      simpl; (reflexivity || lia).
Qed.

(** X9.  Without an [indicator] slot, [renderIndicator] renders nothing
    when [showIndicators] is off or there is at most one panel.  With
    [showIndicators] on, more than one panel and the active index in
    [-1 .. count], it renders one dot per panel, and exactly one of them
    is active: the dot at position [active mod count]. *)
Theorem X9_indicator_one_active_dot (show : bool) (c : Component) (a : Z) :
  (show = false \/ panels c <= 1 ->
   renderIndicator false show c = NoIndicator) /\
  (1 < panels c -> active (state c) = Fin a -> -1 <= a <= panels c ->
   exists dots,
     renderIndicator false true c = IndicatorDots dots /\
     length dots = length (children c) /\
     active_dots dots = 1%nat /\
     forall k, (k < length (children c))%nat ->
       dots !! k = Some (Z.of_nat k =? a mod panels c)).
Proof.
  unfold renderIndicator. change (count c) with (Fin (panels c)).
  rewrite gtb_Fin. split.
  - intros [-> | Hn]; [reflexivity |].
    destruct (Z.ltb_spec 1 (panels c)); [lia |]. now rewrite andb_false_r.
  - intros Hn Ha Hr.
    destruct (Z.ltb_spec 1 (panels c)); [| lia]. simpl.
    pose proof (Z.mod_pos_bound a (panels c) ltac:(lia)) as Hb.
    assert (Hdot : forall k,
              renderDot c k = (Z.of_nat k =? a mod panels c)).
    { intros k. unfold renderDot.
      rewrite (activeIndicator_Fin c a) by (assumption || lia).
      apply seq_Fin. }
    assert (Hmap : map (renderDot c) (List.seq 0 (length (children c))) =
                   map (fun k => Z.of_nat k =? a mod panels c)
                     (List.seq 0 (length (children c)))).
    { apply map_ext. exact Hdot. }
    eexists. split; [reflexivity |]. rewrite Hmap.
    split; [now rewrite length_map, length_seq |].
    split.
    + rewrite active_dots_seq. unfold panels in Hb.
      destruct (Z.leb_spec (Z.of_nat 0) (a mod panels c)),
               (Z.ltb_spec (a mod panels c)
                  (Z.of_nat (0 + length (children c))));
        simpl; (reflexivity || (unfold panels in *; lia)).
    + intros k Hk. now rewrite lookup_map_seq.
Qed.

Lemma X9_indicator_one_active_dot_witness :
  exists dots,
    renderIndicator false true loop3_before = IndicatorDots dots /\
    length dots = length (children loop3_before) /\
    active_dots dots = 1%nat /\
    forall k, (k < length (children loop3_before))%nat ->
      dots !! k = Some (Z.of_nat k =? (-1) mod panels loop3_before).
Proof.
  destruct (X9_indicator_one_active_dot true loop3_before (-1)) as (_ & H).
  apply H; [reflexivity | reflexivity | vm_compute; split; discriminate].
Defined.

(** ** Touch events that are ignored *)

(** X10.  With [touchable] off no sequence of touch events changes
    anything.  And once [swiping] is cleared (as the frame callback of a
    navigation call does, also in the middle of a drag), every further touch
    move and the touch end are ignored: the component stays as it is, no
    move, no ['change'], and the autoplay timer is not armed again. *)
Theorem X10_ignored_touch_events (p : Props) (c : Component)
    (es : list Event) :
  (touchable p = false /\ Forall is_touch_event es) \/
  (swiping (state c) = false /\ Forall is_drag_event es) ->
  run p c es = c.
Proof.
  intros [(Ht & Hes) | (Hsw & Hes)].
  - induction Hes as [| e es He Hes IH]; [reflexivity |].
    unfold run in *. simpl.
    replace (handle p c e) with c; [exact IH |].
    destruct e; try contradiction; simpl;
      unfold onTouchStart, onTouchMove, onTouchEnd; now rewrite Ht.
  - induction Hes as [| e es He Hes IH]; [reflexivity |].
    unfold run in *. simpl.
    replace (handle p c e) with c; [exact IH |].
    destruct e; try contradiction; simpl;
      unfold onTouchMove, onTouchEnd; rewrite Hsw;
      now rewrite ?andb_false_r, ?orb_true_r.
Qed.

Lemma X10_ignored_touch_events_witness :
  run (props_with true None) interrupted3
    [ETouchMove (horizontal_drag (-90)); ETouchEnd 100] = interrupted3.
Proof.
  apply X10_ignored_touch_events. right.
  split; [reflexivity | repeat constructor].
Defined.

(** ** The autoplay timer *)

Lemma autoplayTimer_handle p c e :
  autoplayTimer (handle p c e) = true ->
  autoplayTimer c = true \/
  (gtb (autoplay_prop p) (Fin 0) = true /\ 1 < panels c).
Proof.
  assert (Hauto : forall c0,
            autoplayTimer (autoplay p c0) = true ->
            autoplayTimer c0 = true \/
            (gtb (autoplay_prop p) (Fin 0) = true /\ 1 < panels c0)).
  { intros c0. destruct (surroundings_autoplay p c0) as (_ & _ & ->).
    intros H. apply orb_true_iff in H. destruct H as [H | H]; [right | now left].
    apply andb_true_iff in H. destruct H as (H1 & H2).
    split; [exact H1 | now apply Z.ltb_lt]. }
  destruct e as [root requested | root | now | reading | now | | | |
                 index immediate | immediate | | | visible]; simpl.
  - destruct root as [r |]; [| now left].
    destruct (surroundings_initialize p r c requested) as (_ & _ & _ & ->).
    intros H. apply andb_true_iff in H. destruct H as (H1 & H2).
    right. split; [exact H1 | now apply Z.ltb_lt].
  - unfold resize. destruct root as [r |]; [| now left].
    destruct (surroundings_initialize p r c (active (state c)))
      as (_ & _ & _ & ->).
    intros H. apply andb_true_iff in H. destruct H as (H1 & H2).
    right. split; [exact H1 | now apply Z.ltb_lt].
  - unfold onTouchStart. destruct (negb (touchable p)); [now left |].
    destruct (surroundings_correctPosition p
                (stopAutoplay
                   (set_touchStartTime (set_touch c touch_reset) (Some now))))
      as (_ & _ & ->).
    discriminate.
  - unfold onTouchMove.
    destruct (touchable p && swiping (state c)); [| now left].
    destruct (isCorrectDirection p (set_touch c reading)); [| now left].
    destruct (surroundings_move p (set_touch c reading) (Fin 0)
                (Fin (delta p (set_touch c reading))) false)
      as (_ & _ & ->).
    now left.
  - unfold onTouchEnd.
    destruct (negb (touchable p) || negb (swiping (state c))); [now left |].
    intros H. apply Hauto in H.
    change (panels (set_swiping ?x false)) with (panels x) in H.
    change (autoplayTimer (set_swiping ?x false)) with (autoplayTimer x) in H.
    destruct (onTouchEnd_issue p now c) as [| pace e]; simpl in H;
      [exact H |].
    rewrite panels_move in H.
    now destruct (surroundings_move p c pace (Fin 0) e) as (_ & _ & <-).
  - unfold nav_sync.
    change (autoplayTimer (set_touch ?x touch_reset)) with (autoplayTimer x).
    destruct (surroundings_correctPosition p c) as (_ & _ & ->). now left.
  - unfold prev_frame.
    destruct (surroundings_move p (set_swiping c false) (Fin (-1)) (Fin 0)
                true) as (_ & _ & ->).
    now left.
  - unfold next_frame.
    destruct (surroundings_move p (set_swiping c false) (Fin 1) (Fin 0)
                true) as (_ & _ & ->).
    now left.
  - unfold swipeTo_frame.
    match goal with
    | |- autoplayTimer (move p ?x ?pc ?o ?e) = true -> _ =>
        destruct (surroundings_move p x pc o e) as (_ & _ & ->)
    end.
    destruct immediate; now left.
  - unfold swipeTo_settle. destruct immediate; now left.
  - unfold timer_callback. intros H. apply Hauto in H.
    unfold nav_sync in H.
    change (panels (set_touch ?x touch_reset)) with (panels x) in H.
    change (autoplayTimer (set_touch ?x touch_reset))
      with (autoplayTimer x) in H.
    rewrite panels_correctPosition in H.
    destruct (surroundings_correctPosition p (set_autoplayTimer c false))
      as (_ & _ & Ht).
    rewrite Ht in H. destruct H as [H | H]; [discriminate H | now right].
  - unfold watch_autoplay. destruct (gtb _ _); [apply Hauto | discriminate].
  - unfold watch_visibility. destruct visible; [apply Hauto | discriminate].
Qed.

(** X11.  Under fixed props the autoplay timer is pending only if
    [props.autoplay > 0] and there is more than one panel: if that holds of
    a component, it holds after every sequence of events.  A touch start
    on a touchable component leaves no timer pending. *)
Theorem X11_autoplay_timer_invariant (p : Props) (c : Component)
    (es : list Event) :
  timer_inv p c ->
  timer_inv p (run p c es) /\
  (forall now,
     touchable p = true -> autoplayTimer (onTouchStart p now c) = false).
Proof.
  intros H. split.
  - revert c H. induction es as [| e es IH]; intros c H; [exact H |].
    unfold run in *. simpl. apply IH.
    intros Ht. rewrite panels_handle.
    destruct (autoplayTimer_handle p c e Ht) as [Hc | Hc];
      [now apply H | exact Hc].
  - intros now Ht. unfold onTouchStart. rewrite Ht. simpl.
    now destruct (surroundings_correctPosition p
                    (stopAutoplay
                       (set_touchStartTime (set_touch c touch_reset)
                          (Some now))))
      as (_ & _ & ->).
Qed.

Lemma X11_autoplay_timer_invariant_witness :
  let p := {| loop := true; width_prop := None; height_prop := None;
              vertical := false; touchable := true;
              autoplay_prop := Fin 3000; initialSwipe := Fin 0 |} in
  let es := [EInitialize (Some {| rect_width := 100; rect_height := 50 |})
               (Fin 0); ETimer; ENextFrame; ETouchStart 10; ETouchEnd 20] in
  timer_inv p (run p (fresh 1) es) /\
  autoplayTimer (run p (fresh 2) es) = true.
Proof.
  intros p es. split; [| reflexivity].
  apply (X11_autoplay_timer_invariant p (fresh 1) es).
  intros H. discriminate H.
Defined.

(** ** [swipeTo] outside loop mode, live drags and the overscan slots *)

(** X12.  Outside loop mode with more than one panel, [maxCount = mc]
    and the active index [a] in [0 .. mc] and below [count]: [swipeTo(i)]
    for [i >= 0] stores [min(i mod count, mc)], and it emits one ['change']
    with that index exactly when it differs from [a]. *)
Theorem X12_swipeTo_flat_arrives (p : Props) (c : Component) (a mc i : Z)
    (immediate : bool) :
  loop p = false -> 1 < panels c -> maxCount p c = Fin mc ->
  active (state c) = Fin a -> 0 <= a <= mc -> a < panels c -> 0 <= i ->
  let t := Z.min (i mod panels c) mc in
  active (state (swipeTo p (Fin i) immediate c)) = Fin t /\
  emitted (swipeTo p (Fin i) immediate c) =
    if t =? a then emitted c else emitted c ++ [Fin t].
Proof.
  intros Hl Hn Hmc Ha Hr Han Hi t.
  pose proof (Z.mod_pos_bound i (panels c) ltac:(lia)) as Hb.
  assert (Hcp : correctPosition p c = set_swiping c true)
    by (apply (correctPosition_in_range p c a Ha); lia).
  assert (HT : getTargetActive p (correctPosition p c)
                 (sub (swipeTo_target p (correctPosition p c) (Fin i))
                      (active (state (correctPosition p c)))) = Fin t).
  { rewrite Hcp.
    rewrite swipeTo_target_rem by (assumption || (intros [H _]; congruence)).
    change (panels (set_swiping c true)) with (panels c).
    change (active (state (set_swiping c true))) with (active (state c)).
    rewrite Z.rem_mod_nonneg, Ha by lia. simpl sub.
    rewrite (getTargetActive_resolve p (set_swiping c true) a _ mc Ha)
      by (intros _; exact Hmc).
    unfold resolve. rewrite Hl. subst t. f_equal.
    destruct (Z.eqb_spec (i mod panels c + - a) 0); lia. }
  pose proof (same_geometry_swipeTo p c (Fin i) immediate) as (Hp & _).
  destruct (swipeTo_big p c (Fin i) immediate Hn) as (Hact & _).
  rewrite HT in Hact.
  split; [exact Hact |].
  rewrite swipeTo_emitted, HT by assumption.
  rewrite Hcp. change (active (state (set_swiping c true)))
    with (active (state c)).
  rewrite Ha, sne_Fin.
  destruct (Z.eqb_spec t a); simpl; [reflexivity |].
  f_equal. f_equal.
  rewrite (activeIndicator_Fin _ t) by (rewrite ?Hp; (assumption || lia)).
  rewrite Hp. f_equal. apply Z.mod_small. lia.
Qed.

Lemma X12_swipeTo_flat_arrives_witness :
  let p := props_with false None in
  let t := Z.min (8 mod panels flat3) 2 in
  active (state (swipeTo p (Fin 8) false flat3)) = Fin t /\
  emitted (swipeTo p (Fin 8) false flat3) =
    if t =? 0 then emitted flat3 else emitted flat3 ++ [Fin t].
Proof.
  apply (X12_swipeTo_flat_arrives (props_with false None) flat3 0 2 8 false);
    try reflexivity; lia.
Defined.

(** X13.  In loop mode with more than one panel, integer active index
    [a] and panel size [s], a touch move along the axis during a drag
    ([touchable], [swiping] set) puts the track at the resting offset of
    [a] plus the delta of the reading, [delta - a * s], whatever offset it
    had before; the active index and the emitted events stay as they
    are.  The index, the size, the delta, the product [a * s] and the
    offset itself are of magnitude at most 2^53, so that the doubles of
    the code hold them exactly. *)
Theorem X13_live_drag_follows_finger (p : Props) (c : Component)
    (r : Touch) (a s : Z) :
  loop p = true -> touchable p = true -> swiping (state c) = true ->
  1 < panels c -> active (state c) = Fin a -> size p c = Fin s ->
  along_axis p r ->
  let d := if vertical p then deltaY r else deltaX r in
  exact_int a -> exact_int s -> exact_int d ->
  exact_int (a * s) -> exact_int (d - a * s) ->
  offset (state (onTouchMove p r c)) = Fin (d - a * s) /\
  active (state (onTouchMove p r c)) = Fin a /\
  emitted (onTouchMove p r c) = emitted c /\
  swiping (state (onTouchMove p r c)) = true.
Proof.
  intros Hl Ht Hsw Hn Ha Hs Hr d _ _ _ _ _.
  unfold onTouchMove. rewrite Ht, Hsw. simpl andb. cbv iota.
  assert (Hdir : isCorrectDirection p (set_touch c r) = true).
  { unfold isCorrectDirection. simpl. rewrite Hr. now destruct (vertical p). }
  rewrite Hdir.
  assert (Hn1 : 1 < panels (set_touch c r)) by exact Hn.
  rewrite offset_move, active_move by exact Hn1.
  rewrite emitted_move, andb_false_r, getTargetActive_zero.
  destruct (frame_move p (set_touch c r) (Fin 0)
              (Fin (delta p (set_touch c r))) false) as (_ & _ & _ & ->).
  split; [| now repeat split].
  change (active (state (set_touch c r))) with (active (state c)).
  rewrite Ha. unfold getTargetOffset. rewrite Hl.
  change (size p (set_touch c r)) with (size p c). rewrite Hs.
  simpl. reflexivity.
Qed.

Lemma X13_live_drag_follows_finger_witness :
  let p := props_with true None in
  let c := onTouchStart p 0 loop3_end in
  offset (state (onTouchMove p (horizontal_drag 30) c)) =
    Fin (30 - 2 * 100) /\
  active (state (onTouchMove p (horizontal_drag 30) c)) = Fin 2 /\
  emitted (onTouchMove p (horizontal_drag 30) c) = emitted c /\
  swiping (state (onTouchMove p (horizontal_drag 30) c)) = true.
Proof.
  apply (X13_live_drag_follows_finger (props_with true None)
           (onTouchStart (props_with true None) 0 loop3_end)
           (horizontal_drag 30) 2 100);
    try (unfold exact_int; vm_compute; discriminate); reflexivity.
Defined.

(** X14.  In loop mode with more than one panel, a positive integer
    panel size [s], a measured container of positive length and an integer
    active index [a]: a move without drag offset that lands on the
    overscan slot [count] stores the offset [- count * s] and displaces the
    first panel by [+ trackSize = count * s]; a move that lands on the slot
    -1 stores the offset [s] and displaces the last panel by
    [- count * s].  The index, the pace, their sum, the size, the
    container length, [count * s] and [minOffset] are of magnitude at most
    2^53, so that the doubles of the code hold them exactly. *)
Theorem X14_overscan_slots (p : Props) (c : Component) (r : Rect)
    (a s pace : Z) (e : bool) :
  loop p = true -> 1 < panels c ->
  rect (state c) = Some r -> 0 < base_of p r ->
  size p c = Fin s -> 0 < s -> active (state c) = Fin a -> pace <> 0 ->
  exact_int a -> exact_int pace -> exact_int (a + pace) ->
  exact_int s -> exact_int (base_of p r) -> exact_int (panels c * s) ->
  exact_int (base_of p r - s * panels c) ->
  let c' := move p c (Fin pace) (Fin 0) e in
  (panels c <= a + pace ->
   active (state c') = Fin (panels c) /\
   offset (state c') = Fin (- (panels c * s)) /\
   children c' !! 0%nat = Some (Fin (panels c * s))) /\
  (a + pace <= -1 ->
   active (state c') = Fin (-1) /\
   offset (state c') = Fin s /\
   children c' !! last_index c = Some (Fin (- (panels c * s)))).
Proof.
  intros Hl Hn Hrect Hbase Hs Hs0 Ha Hp _ _ _ _ _ _ _. cbv zeta.
  assert (Hmin : minOffset p c = Fin (base_of p r - s * panels c))
    by (rewrite (minOffset_Fin p c s Hs), Hrect; reflexivity).
  assert (Htrack : trackSize p c = Fin (panels c * s))
    by (unfold trackSize; rewrite Hs; reflexivity).
  assert (Hoff : forall t,
            getTargetOffset p c (Fin t) (Fin 0) = Fin (- (t * s))).
  { intros t. unfold getTargetOffset. rewrite Hl, Hs. simpl. reflexivity. }
  rewrite active_move, offset_move, children_move_loop by assumption.
  rewrite (getTargetActive_loop p c a pace Hl Ha Hp), Hoff.
  split; intros Hland.
  - replace (Z.min (Z.max (a + pace) (-1)) (panels c)) with (panels c) by lia.
    split; [reflexivity |]. split; [reflexivity |].
    rewrite move_edges_first by assumption.
    rewrite Hmin, Htrack, sne_Fin, ltb_Fin.
    destruct (Z.eqb_spec (- (panels c * s)) (base_of p r - s * panels c));
      [lia |].
    simpl. destruct (Z.ltb_spec (- (panels c * s))
                       (base_of p r - s * panels c)); [reflexivity | lia].
  - replace (Z.min (Z.max (a + pace) (-1)) (panels c)) with (-1) by lia.
    split; [reflexivity |]. split; [f_equal; lia |].
    rewrite move_edges_last by assumption.
    rewrite Htrack, sne_Fin, gtb_Fin.
    destruct (Z.eqb_spec (- (-1 * s)) 0); [lia |].
    simpl. destruct (Z.ltb_spec 0 (- (-1 * s))); [reflexivity | lia].
Qed.

Lemma X14_overscan_slots_witness :
  let p := props_with true None in
  let c' := move p loop3_end (Fin 1) (Fin 0) true in
  active (state c') = Fin (panels loop3_end) /\
  offset (state c') = Fin (- (panels loop3_end * 100)) /\
  children c' !! 0%nat = Some (Fin (panels loop3_end * 100)).
Proof.
  destruct (X14_overscan_slots (props_with true None) loop3_end
              {| rect_width := 100; rect_height := 50 |} 2 100 1 true)
    as (H & _);
    try (unfold exact_int; vm_compute; discriminate);
    try reflexivity; try lia.
  apply H. vm_compute. discriminate.
Defined.
